(** * gitissuehelper: batch creation of GitHub issues

    A shallow embedding of [main.go].  The program is a thin, sequential
    orchestration script, so the embedding is a small state monad over a
    "world" made of the state of the GitHub service and the chronological
    trace of what the process did (service calls, standard output, fatal
    log lines).  The GitHub client library is an opaque collaborator; it
    is a section variable, so every theorem holds for every behaviour of
    the service. *)

From Stdlib Require Import ZArith Ascii String DecimalString.
From stdpp Require Import base tactics option list strings.

Local Open Scope string_scope.
Local Open Scope Z_scope.
Local Open Scope list_scope.

(** ** Go strings: [strings.Split] and [strings.TrimSpace]

    A Go string is a sequence of bytes; [string] (a list of [ascii]) is
    exactly that. *)

Module strings.

(** [strings.Split(s, sep)] for a one-byte separator, which is the only
  way the program calls it ([","]): the substrings between separators,
  in order.  A string without separator gives a one-element list. *)
Fixpoint Split (s : string) (sep : ascii) : list string :=
match s with
| EmptyString => [EmptyString]
| String c s' =>
    if Ascii.eqb c sep then EmptyString :: Split s' sep
    else match Split s' sep with
         | w :: ws => String c w :: ws
         | [] => [String c EmptyString]
         end
end.

(** [strings.Join(elems, sep)], used to characterise [Split]. *)
Fixpoint Join (elems : list string) (sep : ascii) : string :=
match elems with
| [] => EmptyString
| [w] => w
| w :: ws => w +:+ String sep (Join ws sep)
end.

Definition bytes (l : list nat) : string :=
string_of_list_ascii (map ascii_of_nat l).

(** The UTF-8 encodings of the code points with Unicode's White_Space
  property (Go's [unicode.IsSpace]): U+0009..U+000D, U+0020, U+0085,
  U+00A0, U+1680, U+2000..U+200A, U+2028, U+2029, U+202F, U+205F,
  U+3000. *)
Definition White_Space : list string :=
map bytes
  [ [9]; [10]; [11]; [12]; [13]; [32];
    [194; 133]; [194; 160];
    [225; 154; 128];
    [226; 128; 128]; [226; 128; 129]; [226; 128; 130]; [226; 128; 131];
    [226; 128; 132]; [226; 128; 133]; [226; 128; 134]; [226; 128; 135];
    [226; 128; 136]; [226; 128; 137]; [226; 128; 138];
    [226; 128; 168]; [226; 128; 169]; [226; 128; 175];
    [226; 129; 159];
    [227; 128; 128] ]%nat.

(** [strip p s] is the rest of [s] after its prefix [p], if it has it. *)
Fixpoint strip (p s : string) : option string :=
match p, s with
| EmptyString, _ => Some s
| String a p', String b s' => if Ascii.eqb a b then strip p' s' else None
| String _ _, EmptyString => None
end.

(** The rest of [s] after one leading rune taken from [runes]. *)
Fixpoint strip_any (runes : list string) (s : string) : option string :=
match runes with
| [] => None
| p :: ps => match strip p s with
             | Some s' => Some s'
             | None => strip_any ps s
             end
end.

(** Drops leading runes of [runes]; every rune is at least one byte, so
  [String.length s] rounds are enough. *)
Fixpoint trim_left (n : nat) (runes : list string) (s : string) : string :=
match n with
| O => s
| S n' => match strip_any runes s with
          | Some s' => trim_left n' runes s'
          | None => s
          end
end.

Definition TrimLeftSpace (s : string) : string :=
trim_left (String.length s) White_Space s.

Definition TrimRightSpace (s : string) : string :=
String.rev (trim_left (String.length s) (map String.rev White_Space)
                      (String.rev s)).

(** [strings.TrimSpace(s)]: [s] without its leading and trailing white
  space, as defined by Unicode. *)
Definition TrimSpace (s : string) : string :=
TrimRightSpace (TrimLeftSpace s).

End strings.

(** A rune is at least one byte long. *)
Definition runes_ok (runes : list string) : Prop :=
  Forall (λ p, (1 ≤ String.length p)%nat) runes.

(** ** Slices updated in place *)

(** [for i := range l { l[i] = f(l[i]) }].  The range is evaluated once,
    indices run from 0 to [len(l) - 1]; an index out of range is a
    run-time panic in Go, [None] here. *)
Definition update_at {A} (f : A → A) (acc : option (list A)) (i : nat)
    : option (list A) :=
  l' ← acc; x ← l' !! i; Some (<[i := f x]> l').

Definition update_each {A} (f : A → A) (l : list A) : option (list A) :=
  foldl (update_at f) (Some l) (seq 0 (length l)).

(** ** Go values *)

(** A Go [error] is observed through its message only. *)
Definition error : Type := string.

(** Go's [int] is 64 bits wide and wraps around. *)
Definition int_wrap (z : Z) : Z := (z + 2 ^ 63) mod 2 ^ 64 - 2 ^ 63.
Definition int_max : Z := 2 ^ 63 - 1.
(** [x++] *)
Definition incr (x : Z) : Z := int_wrap (x + 1).

(** [%d] *)
Definition itoa (z : Z) : string := NilZero.string_of_int (Z.to_int z).

Definition newline : string := strings.bytes [10%nat].
(** The glyphs U+2713 (check mark) and U+2717 (ballot x), in UTF-8. *)
Definition glyph_ok : string := strings.bytes [226; 156; 147]%nat.
Definition glyph_failed : string := strings.bytes [226; 156; 151]%nat.

(** ** The client libraries' data *)

Module context.
Inductive Context : Type := Background.
End context.

Module oauth2.
Record Token : Type := { AccessToken : string }.
End oauth2.

Module github.
(** The client built by [github.NewClient(oauth2.NewClient(ctx, ts))]:
    all that distinguishes two clients is the token they send. *)
Record Client : Type := NewClient { token : oauth2.Token }.

Record ListOptions : Type := { Page : Z; PerPage : Z }.
Record RepositoryListByOrgOptions : Type := { ListOptions_ : ListOptions }.
(** [Name *string]: a pointer, [None] when nil. *)
Record Repository : Type := { Name : option string }.
Record Response : Type := { NextPage : Z }.
(** [Title *string], [Body *string], [Labels *[]string]. *)
Record IssueRequest : Type :=
  { Title : option string; Body : option string;
    Labels : option (list string) }.

(** What one call of [Repositories.ListByOrg] returned. *)
Definition ListByOrg_result : Type :=
  (list Repository * Response * option error)%type.

(** The GitHub service behind the client, as a state machine over an
    arbitrary state [S]: the answer to a call may depend on everything
    that happened before. *)
Record Service (S : Type) : Type :=
  { Repositories_ListByOrg :
      Client → context.Context → string → RepositoryListByOrgOptions →
      S → S * ListByOrg_result;
    Issues_Create :
      Client → context.Context → string → string → IssueRequest →
      S → S * option error }.
Arguments Repositories_ListByOrg {S} _ _ _ _ _ _.
Arguments Issues_Create {S} _ _ _ _ _ _ _.
End github.

(** ** The world and the monad of the process *)

(** What the process does, in the order it does it. *)
Inductive Event : Type :=
| Stdout (s : string)
| ListByOrg (c : github.Client) (org : string)
            (opts : github.RepositoryListByOrgOptions)
            (res : github.ListByOrg_result)
| IssueCreate (c : github.Client) (org repo : string)
              (req : github.IssueRequest) (res : option error)
| LogFatal (s : string).

Record World (S : Type) : Type := { service : S; trace : list Event }.
Arguments service {S} _.
Arguments trace {S} _.

(** How a computation ends: it returns, the process exits ([os.Exit]),
    it panics, or the model ran out of fuel in the one unbounded loop. *)
Inductive outcome (A : Type) : Type :=
| Ret (a : A)
| Exit (code : Z)
| Panic (msg : string)
| OutOfFuel.
Arguments Ret {A} a.
Arguments Exit {A} code.
Arguments Panic {A} msg.
Arguments OutOfFuel {A}.

Definition M (S A : Type) : Type := World S → World S * outcome A.

#[export] Instance M_ret {S} : MRet (M S) := λ A a w, (w, Ret a).
#[export] Instance M_bind {S} : MBind (M S) := λ A B k m w,
  match m w with
  | (w', Ret a) => k a w'
  | (w', Exit c) => (w', Exit c)
  | (w', Panic msg) => (w', Panic msg)
  | (w', OutOfFuel) => (w', OutOfFuel)
  end.

Definition emit {S} (e : Event) : M S unit :=
  λ w, ({| service := service w; trace := trace w ++ [e] |}, Ret tt).

(** [fmt.Printf] and [fmt.Println]: the text written to standard output. *)
Definition Printf {S} (s : string) : M S unit := emit (Stdout s).
Definition Println {S} (s : string) : M S unit := emit (Stdout (s +:+ newline)).

(** [os.Exit(code)] ends the process on the spot. *)
Definition os_Exit {S A} (code : Z) : M S A := λ w, (w, Exit code).

(** A run-time panic (nil dereference, index out of range). *)
Definition panic {S A} (msg : string) : M S A := λ w, (w, Panic msg).

(** [log.Fatalf]: writes the line to the standard logger, then
    [os.Exit(1)]. *)
Definition log_Fatalf {S A} (s : string) : M S A :=
  _ ← emit (LogFatal s); os_Exit 1.

(** ** The program *)

Record IssueCreator : Type :=
  { client : github.Client;
    ctx : context.Context;
    org : string;
    title : string;
    desc : string;
    labels : list string }.

(** NewIssueCreator creates a new IssueCreator instance *)
Definition NewIssueCreator (token org title desc : string)
    (labels : list string) : option IssueCreator * option error :=
  if decide (token = "") then
    (None, Some "GitHub token is required. Set GITHUB_TOKEN env var or use --token flag")
  else
    let ctx := context.Background in
    let ts := {| oauth2.AccessToken := token |} in
    let client := github.NewClient ts in
    (Some {| client := client; ctx := ctx; org := org; title := title;
             desc := desc; labels := labels |}, None).

Section Program.
Context {S : Type} (gh : github.Service S).

(** [ic.client.Repositories.ListByOrg(ic.ctx, ic.org, opts)] *)
Definition call_ListByOrg (ic : IssueCreator)
    (opts : github.RepositoryListByOrgOptions) : M S github.ListByOrg_result :=
  λ w, let '(s', res) := github.Repositories_ListByOrg gh (client ic) (ctx ic)
                           (org ic) opts (service w) in
       ({| service := s'; trace := trace w ++ [ListByOrg (client ic) (org ic) opts res] |},
        Ret res).

(** [ic.client.Issues.Create(ic.ctx, ic.org, repo, issueRequest)] *)
Definition call_IssuesCreate (ic : IssueCreator) (repo : string)
    (req : github.IssueRequest) : M S (option error) :=
  λ w, let '(s', res) := github.Issues_Create gh (client ic) (ctx ic)
                           (org ic) repo req (service w) in
       ({| service := s'; trace := trace w ++ [IssueCreate (client ic) (org ic) repo req res] |},
        Ret res).

(** [for _, repo := range repoList { repos = append(repos, *repo.Name) }] *)
Fixpoint append_names (repos : list string)
    (repoList : list github.Repository) : M S (list string) :=
  match repoList with
  | [] => mret repos
  | repo :: rest =>
      match github.Name repo with
      | Some name => append_names (repos ++ [name]) rest
      | None => panic "invalid memory address or nil pointer dereference"
      end
  end.

(** The [for { ... }] loop of [GetAllRepositories]; one unit of fuel
    per page request. *)
Fixpoint GetAllRepositories_loop (fuel : nat) (ic : IssueCreator)
    (opts : github.RepositoryListByOrgOptions) (repos : list string)
    : M S (list string * option error) :=
  match fuel with
  | O => λ w, (w, OutOfFuel)
  | Datatypes.S fuel' =>
      '(repoList, resp, err) ← call_ListByOrg ic opts;
      match err with
      | Some e => mret ([], Some ("failed to fetch repositories: " +:+ e))
      | None =>
          repos ← append_names repos repoList;
          if decide (github.NextPage resp = 0) then mret (repos, None)
          else
            let opts :=
              {| github.ListOptions_ :=
                   {| github.Page := github.NextPage resp;
                      github.PerPage :=
                        github.PerPage (github.ListOptions_ opts) |} |} in
            GetAllRepositories_loop fuel' ic opts repos
      end
  end.

(** GetAllRepositories fetches all repositories for an organization *)
Definition GetAllRepositories (fuel : nat) (ic : IssueCreator)
    : M S (list string * option error) :=
  let opts :=
    {| github.ListOptions_ := {| github.Page := 0; github.PerPage := 100 |} |} in
  GetAllRepositories_loop fuel ic opts [].

(** CreateIssue creates an issue in a specific repository *)
Definition CreateIssue (ic : IssueCreator) (repo : string) : M S (option error) :=
  let issueRequest :=
    {| github.Title := Some (title ic);
       github.Body := Some (desc ic);
       github.Labels := Some (labels ic) |} in
  err ← call_IssuesCreate ic repo issueRequest;
  match err with
  | Some e =>
      mret (Some ("failed to create issue in " +:+ org ic +:+ "/" +:+ repo
                  +:+ ": " +:+ e))
  | None => mret None
  end.

(** The [for _, repo := range repos] loop of
    [CreateIssuesInRepositories], with its two counters. *)
Fixpoint CreateIssues_loop (ic : IssueCreator) (repos : list string)
    (success failed : Z) : M S (Z * Z) :=
  match repos with
  | [] => mret (success, failed)
  | repo :: rest =>
      _ ← Printf ("Creating issue in " +:+ org ic +:+ "/" +:+ repo +:+ "... ");
      err ← CreateIssue ic repo;
      match err with
      | Some e =>
          _ ← Printf (glyph_failed +:+ " (" +:+ e +:+ ")" +:+ newline);
          CreateIssues_loop ic rest success (incr failed)
      | None =>
          _ ← Println glyph_ok;
          CreateIssues_loop ic rest (incr success) failed
      end
  end.

(** CreateIssuesInRepositories creates issues in multiple repositories *)
Definition CreateIssuesInRepositories (ic : IssueCreator)
    (repos : list string) : M S (Z * Z) :=
  let success := 0 in
  let failed := 0 in
  CreateIssues_loop ic repos success failed.

(** [strings.Split(x, ",")] followed by the loop that trims every
    element in place. *)
Definition split_and_trim (x : string) : M S (list string) :=
  match update_each strings.TrimSpace (strings.Split x ",") with
  | Some l => mret l
  | None => panic "index out of range"
  end.

(** [runCreate]'s step "Create IssueCreator": the label list. *)
Definition runCreate_labelList (labels : string) : M S (list string) :=
  if decide (labels ≠ "") then split_and_trim labels else mret [].

(** [runCreate]'s step "Get repositories". *)
Definition runCreate_repoList (fuel : nat) (org repos : string)
    (creator : IssueCreator) : M S (list string * option error) :=
  if decide (repos ≠ "") then
    repoList ← split_and_trim repos;
    mret (repoList, None)
  else
    _ ← Printf ("Fetching repositories from organization: " +:+ org +:+ "..."
                +:+ newline);
    GetAllRepositories fuel creator.

(** [runCreate], the [create] command.  [viper_GetString] is what the
    configuration registry resolves for a key (a flag, or the
    environment variable bound to it), [os_Getenv] is the process
    environment; both give [""] for what is not set. *)
Definition runCreate (fuel : nat) (viper_GetString os_Getenv : string → string)
    : M S (option error) :=
  let org := viper_GetString "org" in
  let title := viper_GetString "title" in
  let desc := viper_GetString "description" in
  let repos := viper_GetString "repos" in
  let labels := viper_GetString "labels" in
  let token := viper_GetString "token" in
  if decide (org = "" ∨ title = "" ∨ desc = "") then
    mret (Some "missing required arguments: --org, --title, and --description are required")
  else
    let token := if decide (token = "") then os_Getenv "GITHUB_TOKEN" else token in
    labelList ← runCreate_labelList labels;
    match NewIssueCreator token org title desc labelList with
    | (_, Some err) => mret (Some ("failed to initialize: " +:+ err))
    | (None, None) => panic "invalid memory address or nil pointer dereference"
    | (Some creator, None) =>
        '(repoList, err) ← runCreate_repoList fuel org repos creator;
        match err with
        | Some err => mret (Some ("failed to fetch repositories: " +:+ err))
        | None =>
            if decide (length repoList = 0%nat) then
              mret (Some "no repositories found")
            else
              _ ← Printf ("Creating issues in organization: " +:+ org +:+ newline);
              _ ← Printf ("Title: " +:+ title +:+ newline);
              _ ← Printf ("Repositories: " +:+ itoa (Z.of_nat (length repoList))
                          +:+ newline);
              _ ← Println "---";
              '(success, failed) ← CreateIssuesInRepositories creator repoList;
              _ ← Println "---";
              _ ← Printf ("Summary: " +:+ itoa success +:+ " succeeded, "
                          +:+ itoa failed +:+ " failed" +:+ newline);
              if decide (failed > 0) then os_Exit 1
              else mret None
        end
    end.

(** [main], when the command line selects [create]: the command's
    error, if any, is fatal. *)
Definition main (fuel : nat) (viper_GetString os_Getenv : string → string)
    : M S unit :=
  err ← runCreate fuel viper_GetString os_Getenv;
  match err with
  | Some err => log_Fatalf ("Error: " +:+ err)
  | None => mret tt
  end.

End Program.

Arguments call_ListByOrg {S} gh ic opts w /.
Arguments call_IssuesCreate {S} gh ic repo req w /.

(** The exit status of the process, once it has ended: 0 when [main]
    returns, the argument of [os.Exit], 2 after a panic. *)
Definition exit_code {A} (o : outcome A) : option Z :=
  match o with
  | Ret _ => Some 0
  | Exit code => Some code
  | Panic _ => Some 2
  | OutOfFuel => None
  end.

(** ** Reading a trace *)

(** One submission: organization, repository, payload, result. *)
Definition Submission : Type :=
  (string * string * github.IssueRequest * option error)%type.

Definition submission_of (e : Event) : option Submission :=
  match e with
  | IssueCreate _ org repo req res => Some (org, repo, req, res)
  | _ => None
  end.

Definition is_network_call (e : Event) : bool :=
  match e with
  | ListByOrg _ _ _ _ | IssueCreate _ _ _ _ _ => true
  | Stdout _ | LogFatal _ => false
  end.

(** The token a network call was made with. *)
Definition call_token (e : Event) : option string :=
  match e with
  | ListByOrg c _ _ _ | IssueCreate c _ _ _ _ =>
      Some (oauth2.AccessToken (github.token c))
  | Stdout _ | LogFatal _ => None
  end.

(** The submissions of a trace, in order. *)
Definition submissions (tr : list Event) : list Submission :=
  omap submission_of tr.

Definition network_calls (tr : list Event) : list Event :=
  filter (λ e, is_network_call e = true) tr.

Definition sub_repo (x : Submission) : string := x.1.1.2.
Definition sub_org (x : Submission) : string := x.1.1.1.
Definition sub_req (x : Submission) : github.IssueRequest := x.1.2.
Definition sub_res (x : Submission) : option error := x.2.

Definition sub_ok (x : Submission) : bool :=
  match sub_res x with None => true | Some _ => false end.
Definition sub_failed (x : Submission) : bool := negb (sub_ok x).

(** How many elements of [l] satisfy [p]. *)
Definition count {A} (p : A → bool) (l : list A) : nat :=
  length (filter (λ x, p x = true) l).

Definition init_world {S} (s : S) : World S := {| service := s; trace := [] |}.


(** ** What the service answers, read off the service alone

    The program's behaviour is stated against what the service would
    answer to the calls, computed here without the program. *)

(** The number of separators in a string. *)
Fixpoint count_sep (s : string) (sep : ascii) : nat :=
  match s with
  | EmptyString => 0%nat
  | String c s' => ((if Ascii.eqb c sep then 1 else 0) + count_sep s' sep)%nat
  end.

(** The payload of a creator: its title, description and labels. *)
Definition payload (ic : IssueCreator) : github.IssueRequest :=
  {| github.Title := Some (title ic);
     github.Body := Some (desc ic);
     github.Labels := Some (labels ic) |}.

(** One exchange with the listing endpoint: the options sent and the
    answer. *)
Definition Exchange : Type :=
  (github.RepositoryListByOrgOptions * github.ListByOrg_result)%type.

Definition ex_repos (x : Exchange) : list github.Repository := x.2.1.1.
Definition ex_err (x : Exchange) : option error := x.2.2.

Definition next_page (opts : github.RepositoryListByOrgOptions)
    (resp : github.Response) : github.RepositoryListByOrgOptions :=
  {| github.ListOptions_ :=
       {| github.Page := github.NextPage resp;
          github.PerPage := github.PerPage (github.ListOptions_ opts) |} |}.

Definition first_page : github.RepositoryListByOrgOptions :=
  {| github.ListOptions_ := {| github.Page := 0; github.PerPage := 100 |} |}.

Section Service.
Context {S : Type} (gh : github.Service S).

(** The answers of the service to one submission per repository of
    [repos], in order, starting in state [s]. *)
Fixpoint answers (ic : IssueCreator) (repos : list string) (s : S)
    : list (option error) :=
  match repos with
  | [] => []
  | repo :: rest =>
      let '(s', res) := github.Issues_Create gh (client ic) (ctx ic) (org ic)
                          repo (payload ic) s in
      res :: answers ic rest s'
  end.

(** The state of the service after these submissions. *)
Fixpoint after_answers (ic : IssueCreator) (repos : list string) (s : S) : S :=
  match repos with
  | [] => s
  | repo :: rest =>
      let '(s', _) := github.Issues_Create gh (client ic) (ctx ic) (org ic)
                        repo (payload ic) s in
      after_answers ic rest s'
  end.

(** [listing ic opts s exs s']: asked for the page [opts] in state [s]
    and then for each next page it announces, the service answers with
    the exchanges [exs] and ends in state [s']; the last exchange is a
    failed request or a page with no next page. *)
Inductive listing (ic : IssueCreator)
    : github.RepositoryListByOrgOptions → S → list Exchange → S → Prop :=
| listing_failed opts s s' rl resp e :
    github.Repositories_ListByOrg gh (client ic) (ctx ic) (org ic) opts s
      = (s', (rl, resp, Some e)) →
    listing ic opts s [(opts, (rl, resp, Some e))] s'
| listing_last opts s s' rl resp :
    github.Repositories_ListByOrg gh (client ic) (ctx ic) (org ic) opts s
      = (s', (rl, resp, None)) →
    github.NextPage resp = 0 →
    listing ic opts s [(opts, (rl, resp, None))] s'
| listing_more opts s s' rl resp exs s'' :
    github.Repositories_ListByOrg gh (client ic) (ctx ic) (org ic) opts s
      = (s', (rl, resp, None)) →
    github.NextPage resp ≠ 0 →
    listing ic (next_page opts resp) s' exs s'' →
    listing ic opts s ((opts, (rl, resp, None)) :: exs) s''.
End Service.

(** The error of a listing: that of its last exchange. *)
Definition listing_error (exs : list Exchange) : option error :=
  last exs ≫= ex_err.

(** The names on the pages of a listing, in the order received. *)
Definition listing_names (exs : list Exchange) : list string :=
  concat (map (λ x, omap github.Name (ex_repos x)) exs).

(** Every repository on a page that arrived carries a name. *)
Definition named (exs : list Exchange) : Prop :=
  Forall (λ x, ex_err x = None →
               Forall (λ r, is_Some (github.Name r)) (ex_repos x)) exs.

(** The trace event of an exchange made for the creator [ic]. *)
Definition exchange_event (ic : IssueCreator) (x : Exchange) : Event :=
  ListByOrg (client ic) (org ic) x.1 x.2.

(** What the batch loop writes and calls for one repository. *)
Definition progress (ic : IssueCreator) (repo : string) (res : option error)
    : list Event :=
  [ Stdout ("Creating issue in " +:+ org ic +:+ "/" +:+ repo +:+ "... ");
    IssueCreate (client ic) (org ic) repo (payload ic) res;
    Stdout (match res with
            | Some e =>
                glyph_failed +:+ " (" +:+
                  ("failed to create issue in " +:+ org ic +:+ "/" +:+ repo
                   +:+ ": " +:+ e) +:+ ")" +:+ newline
            | None => glyph_ok +:+ newline
            end) ].

Definition batch_trace (ic : IssueCreator) (repos : list string)
    (ress : list (option error)) : list Event :=
  concat (zip_with (progress ic) repos ress).

Definition is_ok (res : option error) : bool :=
  match res with None => true | Some _ => false end.
Definition is_err (res : option error) : bool := negb (is_ok res).

(** ** The configuration, resolved *)

(** The three required fields are present. *)
Definition valid (v : string → string) : Prop :=
  v "org" ≠ "" ∧ v "title" ≠ "" ∧ v "description" ≠ "".

(** The credential: the configured token, else [GITHUB_TOKEN]. *)
Definition resolved_token (v e : string → string) : string :=
  if decide (v "token" = "") then e "GITHUB_TOKEN" else v "token".

(** A comma-separated list, split and trimmed. *)
Definition trimmed (x : string) : list string :=
  map strings.TrimSpace (strings.Split x ",").

Definition resolved_labels (v : string → string) : list string :=
  if decide (v "labels" ≠ "") then trimmed (v "labels") else [].

(** The creator a valid configuration with a credential leads to. *)
Definition creator_of (v e : string → string) : IssueCreator :=
  {| client := github.NewClient {| oauth2.AccessToken := resolved_token v e |};
     ctx := context.Background;
     org := v "org";
     title := v "title";
     desc := v "description";
     labels := resolved_labels v |}.

(** A network call, if [ev] is one, carries the resolved credential. *)
Definition right_token (v e : string → string) (ev : Event) : Prop :=
  ∀ t, call_token ev = Some t → t = resolved_token v e.

(** The messages of the four fatal errors of [runCreate]. *)
Definition ValidationError : error :=
  "missing required arguments: --org, --title, and --description are required".
Definition ConfigurationError : error :=
  "failed to initialize: GitHub token is required. Set GITHUB_TOKEN env var or use --token flag".
Definition EmptyTargetError : error := "no repositories found".
Definition FetchError (cause : error) : error :=
  "failed to fetch repositories: " +:+ cause.

(** The header and the summary around the batch. *)
Definition header (ic : IssueCreator) (n : nat) : list Event :=
  [ Stdout ("Creating issues in organization: " +:+ org ic +:+ newline);
    Stdout ("Title: " +:+ title ic +:+ newline);
    Stdout ("Repositories: " +:+ itoa (Z.of_nat n) +:+ newline);
    Stdout ("---" +:+ newline) ].

Definition summary (success failed : Z) : list Event :=
  [ Stdout ("---" +:+ newline);
    Stdout ("Summary: " +:+ itoa success +:+ " succeeded, " +:+ itoa failed
            +:+ " failed" +:+ newline) ].

(** What [runCreate] does once it holds a non-empty repository list:
    header, batch, summary, and [os.Exit(1)] if the failure counter is
    positive. *)
Definition report {S} (gh : github.Service S) (ic : IssueCreator)
    (repoList : list string) (w : World S) : World S * outcome (option error) :=
  let ress := answers gh ic repoList (service w) in
  let success := Nat.iter (count is_ok ress) incr 0 in
  let failed := Nat.iter (count is_err ress) incr 0 in
  ({| service := after_answers gh ic repoList (service w);
      trace := trace w ++ header ic (length repoList)
                ++ batch_trace ic repoList ress ++ summary success failed |},
   if decide (failed > 0) then Exit 1 else Ret None).

(** ** A concrete service, to run the program on

    The state counts the calls served.  Organization ["acme"] has three
    repositories on two pages; ["void"] has none; ["down"] answers its
    first page and fails on the second.  Creating an issue fails for the
    repositories ["r2"] and [""] and succeeds elsewhere. *)
Module Demo.

Definition page (names : list string) (next : Z) : github.ListByOrg_result :=
  (map (λ n, {| github.Name := Some n |}) names, {| github.NextPage := next |}, None).

Definition ListByOrg (_ : github.Client) (_ : context.Context) (org : string)
    (opts : github.RepositoryListByOrgOptions) (s : nat)
    : nat * github.ListByOrg_result :=
  let p := github.Page (github.ListOptions_ opts) in
  (Datatypes.S s,
   if decide (org = "acme") then
     if decide (p = 0) then page ["r1"; "r2"] 2 else page ["r3"] 0
   else if decide (org = "down") then
     if decide (p = 0) then page ["d1"] 2
     else ([], {| github.NextPage := 0 |}, Some "503 Service Unavailable")
   else page [] 0).

Definition Create (_ : github.Client) (_ : context.Context)
    (org repo : string) (_ : github.IssueRequest) (s : nat)
    : nat * option error :=
  (Datatypes.S s,
   if decide (repo = "r2" ∨ repo = "") then Some "404 Not Found" else None).

Definition gh : github.Service nat :=
  {| github.Repositories_ListByOrg := ListByOrg;
     github.Issues_Create := Create |}.

(** A configuration registry given as an association list. *)
Fixpoint lookup_key (kvs : list (string * string)) (k : string) : string :=
  match kvs with
  | [] => ""
  | (k', v) :: rest => if decide (k' = k) then v else lookup_key rest k
  end.

Definition flags (org repos token : string) : string → string :=
  lookup_key [("org", org); ("title", "T"); ("description", "D");
              ("repos", repos); ("labels", "bug, help wanted");
              ("token", token)].

Definition no_env : string → string := λ _, "".
Definition env_token : string → string := lookup_key [("GITHUB_TOKEN", "t0k")].

Definition ic : IssueCreator :=
  {| client := github.NewClient {| oauth2.AccessToken := "t0k" |};
     ctx := context.Background; org := "acme"; title := "T"; desc := "D";
     labels := ["bug"] |}.

Definition ic_down : IssueCreator :=
  {| client := github.NewClient {| oauth2.AccessToken := "t0k" |};
     ctx := context.Background; org := "down"; title := "T"; desc := "D";
     labels := [] |}.

(** The exchanges of listing ["down"]: a page, then a failure. *)
Definition down_exchanges : list Exchange :=
  [ (first_page, page ["d1"] 2);
    (next_page first_page {| github.NextPage := 2 |},
     ([], {| github.NextPage := 0 |}, Some "503 Service Unavailable")) ].

(** The exchanges of listing ["acme"]: two pages. *)
Definition acme_exchanges : list Exchange :=
  [ (first_page, page ["r1"; "r2"] 2);
    (next_page first_page {| github.NextPage := 2 |}, page ["r3"] 0) ].

End Demo.

(** ** Two more services, for the edges of the lister *)

Module Edge.

(** A service whose listing always announces another page. *)
Definition ListByOrg_endless (_ : github.Client) (_ : context.Context)
    (_ : string) (_ : github.RepositoryListByOrgOptions) (s : nat)
    : nat * github.ListByOrg_result :=
  (Datatypes.S s,
   ([{| github.Name := Some "again" |}], {| github.NextPage := 7 |}, None)).

Definition endless : github.Service nat :=
  {| github.Repositories_ListByOrg := ListByOrg_endless;
     github.Issues_Create := Demo.Create |}.

(** A service whose only page holds a repository without a name. *)
Definition ListByOrg_unnamed (_ : github.Client) (_ : context.Context)
    (_ : string) (_ : github.RepositoryListByOrgOptions) (s : nat)
    : nat * github.ListByOrg_result :=
  (Datatypes.S s,
   ([{| github.Name := Some "a" |}; {| github.Name := None |}],
    {| github.NextPage := 0 |}, None)).

Definition unnamed : github.Service nat :=
  {| github.Repositories_ListByOrg := ListByOrg_unnamed;
     github.Issues_Create := Demo.Create |}.

End Edge.

(** The line [runCreate] writes before it lists an organization. *)
Definition fetching (org : string) : Event :=
  Stdout ("Fetching repositories from organization: " +:+ org +:+ "..."
          +:+ newline).

(** [ev] is a request to the listing endpoint made by [ic] with the
    page size of the program. *)
Definition listing_request (ic : IssueCreator) (ev : Event) : Prop :=
  ∃ opts res,
    ev = ListByOrg (client ic) (org ic) opts res ∧
    github.PerPage (github.ListOptions_ opts) = 100.

Definition is_listing (ev : Event) : bool :=
  match ev with ListByOrg _ _ _ _ => true | _ => false end.

(** No white-space rune begins or ends [name]. *)
Definition no_outer_space (name : string) : Prop :=
  strings.strip_any strings.White_Space name = None ∧
  strings.strip_any (map String.rev strings.White_Space) (String.rev name) = None.

(** * Properties *)

(** ** Slices and strings *)

Section update_each.
Context {A : Type} (f : A → A).

(** The loop invariant: after the indices below [i], the slice is
    mapped up to [i] and untouched from [i] on. *)
Lemma update_each_from (l : list A) (n i : nat) :
  (i + n = length l)%nat →
  foldl (update_at f) (Some (map f (take i l) ++ drop i l)) (seq i n)
  = Some (map f l).
Proof.
  revert i. induction n as [|n IH]; intros i Hlen; cbn [foldl seq].
  - rewrite take_ge, drop_ge by lia. by rewrite app_nil_r.
  - destruct (lookup_lt_is_Some_2 l i) as [x Hx]; [lia|].
    assert (Htk : length (map f (take i l)) = i)
      by (rewrite length_map, length_take_le; lia).
    assert (Hcur : (map f (take i l) ++ drop i l) !! i = Some x).
    { rewrite lookup_app_r by lia. rewrite Htk, Nat.sub_diag, lookup_drop.
      by rewrite Nat.add_0_r. }
    assert (Hstep : update_at f (Some (map f (take i l) ++ drop i l)) i
                    = Some (<[i:=f x]> (map f (take i l) ++ drop i l)))
      by (unfold update_at; simpl; by rewrite Hcur).
    rewrite Hstep.
    replace (<[i:=f x]> (map f (take i l) ++ drop i l))
      with (map f (take (Datatypes.S i) l) ++ drop (Datatypes.S i) l).
    + apply IH. lia.
    + rewrite (take_S_r l i x Hx), map_app. simpl.
      rewrite (drop_S l x i Hx).
      rewrite insert_app_r_alt by lia. rewrite Htk, Nat.sub_diag. simpl.
      by rewrite <- app_assoc.
Qed.

(** The in-place loop never indexes out of range and computes [map]. *)
Lemma update_each_map (l : list A) : update_each f l = Some (map f l).
Proof.
  unfold update_each. apply (update_each_from l (length l) 0). lia.
Qed.
End update_each.

Lemma Split_not_nil (s : string) (sep : ascii) : strings.Split s sep ≠ [].
Proof.
  destruct s as [|c s]; simpl; [done|].
  destruct (Ascii.eqb c sep); [done|]. by destruct (strings.Split s sep).
Qed.

Lemma Split_length_pos (s : string) (sep : ascii) :
  (1 ≤ length (strings.Split s sep))%nat.
Proof.
  pose proof (Split_not_nil s sep). destruct (strings.Split s sep); simpl; [done|lia].
Qed.

(** Joining the pieces with the separator gives the string back. *)
Lemma Join_Split (s : string) (sep : ascii) :
  strings.Join (strings.Split s sep) sep = s.
Proof.
  induction s as [|c s IH]; simpl; [done|].
  pose proof (Split_not_nil s sep) as Hne.
  destruct (Ascii.eqb_spec c sep) as [->|Hc].
  - destruct (strings.Split s sep) as [|w ws] eqn:E; [done|].
    simpl. by rewrite <- IH.
  - destruct (strings.Split s sep) as [|w ws] eqn:E; [done|].
    rewrite <- IH. by destruct ws.
Qed.

Lemma Split_length (s : string) (sep : ascii) :
  length (strings.Split s sep) = Datatypes.S (count_sep s sep).
Proof.
  induction s as [|c s IH]; simpl; [done|].
  pose proof (Split_not_nil s sep) as Hne.
  destruct (Ascii.eqb c sep); simpl; [by rewrite IH|].
  destruct (strings.Split s sep); [done|]. simpl in *. lia.
Qed.

(** No piece contains the separator. *)
Lemma Split_no_sep (s : string) (sep : ascii) :
  Forall (λ w, count_sep w sep = 0%nat) (strings.Split s sep).
Proof.
  induction s as [|c s IH]; simpl; [by constructor|].
  pose proof (Split_not_nil s sep) as Hne.
  destruct (Ascii.eqb c sep) eqn:Hc; [by constructor|].
  destruct (strings.Split s sep) as [|w ws]; [done|].
  inversion IH; subst. constructor; [|done]. simpl. by rewrite Hc.
Qed.

(** ** [TrimSpace] leaves no white space at either end *)

Lemma append_nil_l (s : string) : "" +:+ s = s.
Proof. reflexivity. Qed.

Lemma append_cons (a : ascii) (s t : string) :
  String a s +:+ t = String a (s +:+ t).
Proof. reflexivity. Qed.

Lemma strip_app (p s s' : string) :
  strings.strip p s = Some s' → s = p +:+ s'.
Proof.
  revert s. induction p as [|a p IH]; intros [|b s] H; simpl in H;
    simplify_eq; rewrite ?append_nil_l, ?append_cons; try done.
  destruct (Ascii.eqb_spec a b) as [->|]; [|done]. f_equal. by apply IH.
Qed.

Lemma append_assoc (a b c : string) : (a +:+ b) +:+ c = a +:+ (b +:+ c).
Proof.
  induction a as [|x a IH]; [done|]. by rewrite !append_cons, IH.
Qed.

Lemma strip_app_r (p a x q : string) :
  strings.strip p a = Some x → strings.strip p (a +:+ q) = Some (x +:+ q).
Proof.
  revert a. induction p as [|c p IH]; intros [|b a] H; simpl in H;
    simplify_eq; rewrite ?append_nil_l, ?append_cons; simpl; try done.
  destruct (Ascii.eqb c b); [by apply IH|done].
Qed.

Lemma length_append (a b : string) :
  String.length (a +:+ b) = (String.length a + String.length b)%nat.
Proof.
  induction a as [|c a IH]; rewrite ?append_nil_l, ?append_cons; simpl; [done|].
  by rewrite IH.
Qed.

Lemma White_Space_ok : runes_ok strings.White_Space.
Proof. unfold runes_ok. repeat constructor. Qed.

Lemma White_Space_rev_ok : runes_ok (map String.rev strings.White_Space).
Proof. unfold runes_ok. repeat constructor. Qed.

Lemma strip_any_app (runes : list string) (s s' : string) :
  runes_ok runes → strings.strip_any runes s = Some s' →
  ∃ p, (1 ≤ String.length p)%nat ∧ s = p +:+ s'.
Proof.
  induction 1 as [|p runes Hp _ IH]; simpl; [done|].
  destruct (strings.strip p s) as [x|] eqn:E; [|exact IH].
  intros [= <-]. exists p. split; [done|]. by apply strip_app.
Qed.

Lemma strip_any_app_r (runes : list string) (a q : string) :
  strings.strip_any runes (a +:+ q) = None → strings.strip_any runes a = None.
Proof.
  induction runes as [|p runes IH]; simpl; [done|].
  destruct (strings.strip p a) as [x|] eqn:E.
  - by rewrite (strip_app_r p a x q E).
  - destruct (strings.strip p (a +:+ q)); [done|exact IH].
Qed.

(** With one round per byte the trimming loop reaches its end. *)
Lemma trim_left_clean (runes : list string) (n : nat) (s : string) :
  runes_ok runes → (String.length s ≤ n)%nat →
  strings.strip_any runes (strings.trim_left n runes s) = None.
Proof.
  intros Hok. revert s. induction n as [|n IH]; intros s Hn; simpl.
  - destruct s; [|simpl in Hn; lia]. clear Hn.
    induction Hok as [|p runes Hp _ IHr]; simpl; [done|].
    destruct p; [simpl in Hp; lia|]. exact IHr.
  - destruct (strings.strip_any runes s) as [s'|] eqn:E; [|done].
    apply IH. destruct (strip_any_app runes s s' Hok E) as (p & Hp & ->).
    rewrite length_append in Hn. lia.
Qed.

(** What the loop returns is the end of its argument. *)
Lemma trim_left_suffix (runes : list string) (n : nat) (s : string) :
  runes_ok runes → ∃ p, s = p +:+ strings.trim_left n runes s.
Proof.
  intros Hok. revert s. induction n as [|n IH]; intros s; simpl.
  - by exists "".
  - destruct (strings.strip_any runes s) as [s'|] eqn:E; [|by exists ""].
    destruct (strip_any_app runes s s' Hok E) as (p & _ & ->).
    destruct (IH s') as (p' & Hp'). exists (p +:+ p').
    rewrite append_assoc. by rewrite <- Hp'.
Qed.

Lemma append_nil_r (s : string) : s +:+ "" = s.
Proof.
  induction s as [|c s IH]; [done|]. by rewrite append_cons, IH.
Qed.

Lemma rev_app_append (s t : string) :
  String.rev_app s t = String.rev s +:+ t.
Proof.
  unfold String.rev. revert t. induction s as [|a s IH]; intros t; simpl; [done|].
  rewrite (IH (String a t)), (IH (String a "")).
  by rewrite append_assoc.
Qed.

Lemma rev_cons (c : ascii) (s : string) :
  String.rev (String c s) = String.rev s +:+ String c "".
Proof. unfold String.rev at 1. simpl. apply rev_app_append. Qed.

Lemma rev_append (a b : string) :
  String.rev (a +:+ b) = String.rev b +:+ String.rev a.
Proof.
  induction a as [|c a IH].
  - by rewrite append_nil_l, append_nil_r.
  - rewrite append_cons, !rev_cons, IH. by rewrite append_assoc.
Qed.

Lemma rev_rev (s : string) : String.rev (String.rev s) = s.
Proof.
  induction s as [|c s IH]; [done|].
  by rewrite rev_cons, rev_append, IH.
Qed.

Lemma length_rev (s : string) : String.length (String.rev s) = String.length s.
Proof.
  induction s as [|c s IH]; [done|].
  rewrite rev_cons, length_append, IH. simpl. lia.
Qed.

(** Trimming on the right keeps a beginning of the string. *)
Lemma TrimRightSpace_prefix (s : string) :
  ∃ q, s = strings.TrimRightSpace s +:+ q.
Proof.
  unfold strings.TrimRightSpace.
  destruct (trim_left_suffix (map String.rev strings.White_Space)
              (String.length s) (String.rev s) White_Space_rev_ok) as (p & Hp).
  exists (String.rev p). rewrite <- rev_append, <- Hp. by rewrite rev_rev.
Qed.

(** No white-space rune begins the result of [TrimSpace]. *)
Lemma TrimSpace_no_leading (s : string) :
  strings.strip_any strings.White_Space (strings.TrimSpace s) = None.
Proof.
  unfold strings.TrimSpace.
  destruct (TrimRightSpace_prefix (strings.TrimLeftSpace s)) as (q & Hq).
  apply (strip_any_app_r _ _ q). rewrite <- Hq.
  apply trim_left_clean; [apply White_Space_ok|done].
Qed.

(** No white-space rune ends it: none begins its reversal, reversed. *)
Lemma TrimSpace_no_trailing (s : string) :
  strings.strip_any (map String.rev strings.White_Space)
                    (String.rev (strings.TrimSpace s)) = None.
Proof.
  unfold strings.TrimSpace, strings.TrimRightSpace. rewrite rev_rev.
  apply trim_left_clean; [apply White_Space_rev_ok|]. by rewrite length_rev.
Qed.

(** ** Counters *)

Lemma incr_no_wrap (x : Z) : 0 ≤ x < int_max → incr x = x + 1.
Proof.
  unfold incr, int_wrap, int_max. intros H.
  rewrite Z.mod_small; lia.
Qed.

Lemma iter_incr (n : nat) (x : Z) :
  0 ≤ x → x + Z.of_nat n ≤ int_max → Nat.iter n incr x = x + Z.of_nat n.
Proof.
  induction n as [|n IH]; intros H0 Hmax; simpl; [lia|].
  rewrite IH by lia. rewrite incr_no_wrap; lia.
Qed.

Lemma iter_incr_shift (n : nat) (x : Z) :
  Nat.iter n incr (incr x) = Nat.iter (Datatypes.S n) incr x.
Proof. induction n as [|n IH]; simpl; [done|]. by rewrite IH. Qed.

Lemma count_split {A} (p : A → bool) (l : list A) :
  (count p l + count (λ x, negb (p x)) l = length l)%nat.
Proof.
  unfold count. induction l as [|a l IH]; simpl; [done|].
  rewrite !filter_cons.
  destruct (p a); simpl; repeat case_decide; simpl; try done; lia.
Qed.

(** ** The batch loop *)

Section Batch.
Context {S : Type} (gh : github.Service S).

Lemma length_answers ic repos (s : S) :
  length (answers gh ic repos s) = length repos.
Proof.
  revert s. induction repos as [|repo rest IH]; intros s; simpl; [done|].
  destruct (github.Issues_Create gh _ _ _ _ _ s) as [s' res]. simpl.
  by rewrite IH.
Qed.

(** The loop, run: it ends by returning, the service has served one
    submission per repository, the trace grew by the progress of each
    repository in turn, and each counter was incremented once per
    matching answer. *)
Lemma CreateIssues_loop_run ic repos (a b : Z) (w : World S) :
  CreateIssues_loop gh ic repos a b w =
    ({| service := after_answers gh ic repos (service w);
        trace := trace w ++ batch_trace ic repos (answers gh ic repos (service w)) |},
     Ret (Nat.iter (count is_ok (answers gh ic repos (service w))) incr a,
          Nat.iter (count is_err (answers gh ic repos (service w))) incr b)).
Proof.
  revert a b w. induction repos as [|repo rest IH]; intros a b [s tr].
  - simpl. unfold batch_trace. simpl. by rewrite app_nil_r.
  - cbn [CreateIssues_loop answers after_answers].
    unfold mbind, M_bind, Printf, emit, CreateIssue, mbind, M_bind,
      call_IssuesCreate. cbn [service trace].
    fold (payload ic).
    destruct (github.Issues_Create gh _ _ _ _ _ s) as [s' [e|]] eqn:E.
    + cbn. rewrite IH. cbn [service trace].
      unfold batch_trace, count. cbn. rewrite <- !app_assoc. cbn.
      by rewrite iter_incr_shift.
    + cbn. rewrite IH. cbn [service trace].
      unfold batch_trace, count. cbn. rewrite <- !app_assoc. cbn.
      by rewrite iter_incr_shift.
Qed.

Lemma CreateIssuesInRepositories_run ic repos (w : World S) :
  ∃ ress,
    length ress = length repos ∧
    CreateIssuesInRepositories gh ic repos w =
      ({| service := after_answers gh ic repos (service w);
          trace := trace w ++ batch_trace ic repos ress |},
       Ret (Nat.iter (count is_ok ress) incr 0,
            Nat.iter (count is_err ress) incr 0)).
Proof.
  exists (answers gh ic repos (service w)). split; [apply length_answers|].
  apply CreateIssues_loop_run.
Qed.
End Batch.

(** ** Submissions of a batch trace *)

Lemma submissions_app (tr1 tr2 : list Event) :
  submissions (tr1 ++ tr2) = submissions tr1 ++ submissions tr2.
Proof. apply omap_app. Qed.

Lemma network_calls_app (tr1 tr2 : list Event) :
  network_calls (tr1 ++ tr2) = network_calls tr1 ++ network_calls tr2.
Proof. apply filter_app. Qed.

Lemma submissions_batch_trace ic repos ress :
  submissions (batch_trace ic repos ress)
  = zip_with (λ repo res, (org ic, repo, payload ic, res)) repos ress.
Proof.
  revert ress. induction repos as [|repo rest IH]; intros [|res ress];
    try reflexivity.
  unfold batch_trace in *. cbn. by rewrite <- IH.
Qed.

Section zipped.
Context (ic : IssueCreator).
Let sub (repo : string) (res : option error) : Submission :=
  (org ic, repo, payload ic, res).

Lemma zipped_repos repos ress :
  length ress = length repos → map sub_repo (zip_with sub repos ress) = repos.
Proof.
  revert ress. induction repos as [|repo rest IH]; intros [|res ress] Hlen;
    try done. simpl in *. f_equal. apply IH. lia.
Qed.

Lemma zipped_ok repos ress :
  length ress = length repos →
  count sub_ok (zip_with sub repos ress) = count is_ok ress.
Proof.
  unfold count.
  revert ress. induction repos as [|repo rest IH]; intros [|res ress] Hlen;
    try done. simpl in Hlen. cbn [zip_with]. rewrite !filter_cons.
  assert (IH' := IH ress ltac:(lia)).
  destruct res; repeat case_decide; try done; cbn [length]; by rewrite IH'.
Qed.

Lemma zipped_failed repos ress :
  length ress = length repos →
  count sub_failed (zip_with sub repos ress) = count is_err ress.
Proof.
  unfold count.
  revert ress. induction repos as [|repo rest IH]; intros [|res ress] Hlen;
    try done. simpl in Hlen. cbn [zip_with]. rewrite !filter_cons.
  assert (IH' := IH ress ltac:(lia)).
  destruct res; repeat case_decide; try done; cbn [length]; by rewrite IH'.
Qed.

Lemma zipped_lookup repos ress i repo :
  length ress = length repos → repos !! i = Some repo →
  ∃ res, zip_with sub repos ress !! i = Some (sub repo res).
Proof.
  revert ress i. induction repos as [|r rest IH]; intros [|res ress] i Hlen Hi;
    try done.
  destruct i as [|i]; simpl in *.
  - inversion Hi; subst. by exists res.
  - apply IH; [lia|done].
Qed.

Lemma zipped_payload repos ress :
  Forall (λ x, sub_org x = org ic ∧ sub_req x = payload ic)
         (zip_with sub repos ress).
Proof.
  revert ress. induction repos as [|r rest IH]; intros [|res ress];
    cbn [zip_with]; constructor; [done|apply IH].
Qed.
End zipped.

(** Counters that never reach [int_max] count exactly. *)
Lemma counters_exact (ress : list (option error)) :
  Z.of_nat (length ress) ≤ int_max →
  Nat.iter (count is_ok ress) incr 0 = Z.of_nat (count is_ok ress) ∧
  Nat.iter (count is_err ress) incr 0 = Z.of_nat (count is_err ress).
Proof.
  intros Hmax. pose proof (count_split is_ok ress) as Hsplit.
  fold is_err in Hsplit. change (λ x, is_err x) with is_err in Hsplit.
  split; rewrite iter_incr; lia.
Qed.

(** ** The batch orchestrator *)

Section BatchClaims.
Context {S : Type} (gh : github.Service S).

(** The run of the orchestrator in terms of its submissions: it
    returns, and what it appended to the trace holds one submission
    per repository, in the order of the list, with the creator's
    organization and payload; the counters are the iterated
    increments. *)
Lemma batch_submissions ic repos (w : World S) :
  ∃ ress,
    length ress = length repos ∧
    CreateIssuesInRepositories gh ic repos w =
      ({| service := after_answers gh ic repos (service w);
          trace := trace w ++ batch_trace ic repos ress |},
       Ret (Nat.iter (count is_ok ress) incr 0,
            Nat.iter (count is_err ress) incr 0)) ∧
    map sub_repo (submissions (batch_trace ic repos ress)) = repos ∧
    count sub_ok (submissions (batch_trace ic repos ress)) = count is_ok ress ∧
    count sub_failed (submissions (batch_trace ic repos ress)) = count is_err ress.
Proof.
  destruct (CreateIssuesInRepositories_run gh ic repos w) as (ress & Hlen & Hrun).
  exists ress. rewrite submissions_batch_trace.
  rewrite zipped_repos, zipped_ok, zipped_failed by done. done.
Qed.

(** C1. Over a non-empty repository list, the two counters returned by
    the batch orchestrator add up to the length of the list: there is
    one submission per repository, the success counter is the number
    of submissions that succeeded and the failure counter the number
    of those that failed. *)
Theorem C1_counts_add_up ic repos (w : World S) :
  repos ≠ [] →
  Z.of_nat (length repos) ≤ int_max →
  ∃ w' success failed evs,
    CreateIssuesInRepositories gh ic repos w = (w', Ret (success, failed)) ∧
    trace w' = trace w ++ evs ∧
    map sub_repo (submissions evs) = repos ∧
    success = Z.of_nat (count sub_ok (submissions evs)) ∧
    failed = Z.of_nat (count sub_failed (submissions evs)) ∧
    success + failed = Z.of_nat (length repos).
Proof.
  intros _ Hmax.
  destruct (batch_submissions ic repos w) as (ress & Hlen & Hrun & Hrepos & Hok & Hko).
  destruct (counters_exact ress) as [Ha Hb]; [by rewrite Hlen|].
  eexists _, _, _, (batch_trace ic repos ress).
  split; [exact Hrun|]. split; [done|]. split; [done|].
  rewrite Hok, Hko. split; [done|]. split; [done|].
  rewrite Ha, Hb, <- Hlen.
  pose proof (count_split is_ok ress) as Hsplit.
  fold is_err in Hsplit. change (λ x, is_err x) with is_err in Hsplit. lia.
Qed.

(** C2. Whatever the submissions answer, the batch orchestrator
    returns its two counters (it neither exits, panics nor returns an
    error), and it has submitted to every repository of the list: the
    [i]-th submission is for the [i]-th repository, whether or not
    earlier ones failed.  Failures show in the failure counter only. *)
Theorem C2_failures_do_not_stop_the_batch ic repos (w : World S) :
  Z.of_nat (length repos) ≤ int_max →
  ∃ w' success failed evs,
    CreateIssuesInRepositories gh ic repos w = (w', Ret (success, failed)) ∧
    trace w' = trace w ++ evs ∧
    length (submissions evs) = length repos ∧
    (∀ i repo, repos !! i = Some repo →
       ∃ res, submissions evs !! i = Some (org ic, repo, payload ic, res)) ∧
    failed = Z.of_nat (count sub_failed (submissions evs)).
Proof.
  intros Hmax.
  destruct (batch_submissions ic repos w) as (ress & Hlen & Hrun & Hrepos & Hok & Hko).
  destruct (counters_exact ress) as [Ha Hb]; [by rewrite Hlen|].
  eexists _, _, _, (batch_trace ic repos ress).
  split; [exact Hrun|]. split; [done|].
  split; [by rewrite <- Hrepos at 2; rewrite length_map|].
  split.
  - intros i repo Hi. rewrite submissions_batch_trace.
    by apply zipped_lookup.
  - by rewrite Hb, Hko.
Qed.

(** C8. The submissions happen one after the other in the order of
    the list: what the orchestrator appends to the trace is, for each
    repository in turn, its start notice, its one create-issue call
    and its result notice; the repositories of the create-issue calls,
    read in the order of the trace, are the list itself. *)
Theorem C8_submissions_follow_list_order ic repos (w : World S) :
  ∃ w' counts ress,
    CreateIssuesInRepositories gh ic repos w = (w', Ret counts) ∧
    length ress = length repos ∧
    trace w' = trace w ++ concat (zip_with (progress ic) repos ress) ∧
    map sub_repo (submissions (concat (zip_with (progress ic) repos ress)))
    = repos.
Proof.
  destruct (batch_submissions ic repos w) as (ress & Hlen & Hrun & Hrepos & _).
  eexists _, _, ress. split; [exact Hrun|]. done.
Qed.
End BatchClaims.

Lemma C1_counts_add_up_witness :
  ["r1"; "r2"] ≠ [] ∧ Z.of_nat (length ["r1"; "r2"]) ≤ int_max ∧
  ∃ w' success failed evs,
    CreateIssuesInRepositories Demo.gh Demo.ic ["r1"; "r2"] (init_world 0%nat)
      = (w', Ret (success, failed)) ∧
    trace w' = trace (init_world 0%nat) ++ evs ∧
    map sub_repo (submissions evs) = ["r1"; "r2"] ∧
    success = Z.of_nat (count sub_ok (submissions evs)) ∧
    failed = Z.of_nat (count sub_failed (submissions evs)) ∧
    success + failed = Z.of_nat (length ["r1"; "r2"]).
Proof.
  split; [discriminate|]. split; [unfold int_max; simpl; lia|].
  apply (C1_counts_add_up Demo.gh Demo.ic ["r1"; "r2"] (init_world 0%nat));
    [discriminate | unfold int_max; simpl; lia].
Defined.

Lemma C2_failures_do_not_stop_the_batch_witness :
  Z.of_nat (length ["r2"; "r1"; "r3"]) ≤ int_max ∧
  ∃ w' success failed evs,
    CreateIssuesInRepositories Demo.gh Demo.ic ["r2"; "r1"; "r3"] (init_world 0%nat)
      = (w', Ret (success, failed)) ∧
    trace w' = trace (init_world 0%nat) ++ evs ∧
    length (submissions evs) = length ["r2"; "r1"; "r3"] ∧
    (∀ i repo, ["r2"; "r1"; "r3"] !! i = Some repo →
       ∃ res, submissions evs !! i
              = Some (org Demo.ic, repo, payload Demo.ic, res)) ∧
    failed = Z.of_nat (count sub_failed (submissions evs)).
Proof.
  split; [unfold int_max; simpl; lia|].
  apply (C2_failures_do_not_stop_the_batch Demo.gh Demo.ic ["r2"; "r1"; "r3"]
           (init_world 0%nat)).
  unfold int_max; simpl; lia.
Defined.

(** The spec's example: the list b, a, c is submitted in that order,
    and a first failure (r2) is followed by the other submissions. *)
Example batch_b_a_c :
  map sub_repo (submissions (trace
    (CreateIssuesInRepositories Demo.gh Demo.ic ["b"; "a"; "c"] (init_world 0%nat)).1))
  = ["b"; "a"; "c"].
Proof. reflexivity. Qed.

Example batch_r2_r1_r3 :
  (CreateIssuesInRepositories Demo.gh Demo.ic ["r2"; "r1"; "r3"] (init_world 0%nat)).2
  = Ret (2, 1).
Proof. reflexivity. Qed.

(** ** The repository lister *)

Section Lister.
Context {S : Type} (gh : github.Service S).

Lemma append_names_named repos rl (w : World S) :
  Forall (λ r, is_Some (github.Name r)) rl →
  append_names repos rl w = (w, Ret (repos ++ omap github.Name rl)).
Proof.
  intros Hn. revert repos. induction Hn as [|r rl [n Hr] _ IH]; intros repos.
  - simpl. by rewrite app_nil_r.
  - simpl. rewrite Hr. simpl. rewrite IH. by rewrite <- app_assoc.
Qed.

Lemma listing_not_nil ic opts (s : S) exs s' :
  listing gh ic opts s exs s' → exs ≠ [].
Proof. by destruct 1. Qed.

Lemma listing_error_cons x exs :
  exs ≠ [] → listing_error (x :: exs) = listing_error exs.
Proof. unfold listing_error. by destruct exs. Qed.

(** The pagination loop, run from any page with any names already
    collected: with one unit of fuel per exchange it returns, having
    made exactly the exchanges of the listing. *)
Lemma GetAllRepositories_loop_run ic opts (s : S) exs s' :
  listing gh ic opts s exs s' →
  named exs →
  ∀ fuel repos tr,
    (length exs ≤ fuel)%nat →
    GetAllRepositories_loop gh fuel ic opts repos {| service := s; trace := tr |}
    = ({| service := s'; trace := tr ++ map (exchange_event ic) exs |},
       Ret match listing_error exs with
           | Some e => ([], Some ("failed to fetch repositories: " +:+ e))
           | None => (repos ++ listing_names exs, None)
           end).
Proof.
  induction 1 as [opts s s' rl resp e Hcall
                 |opts s s' rl resp Hcall Hlast
                 |opts s s' rl resp exs s'' Hcall Hmore Hrest IH];
    intros Hnamed [|fuel] repos tr Hfuel; simpl in Hfuel; try lia.
  - cbn [GetAllRepositories_loop]. unfold mbind, M_bind.
    cbn [call_ListByOrg service trace]. by rewrite Hcall.
  - cbn [GetAllRepositories_loop]. unfold mbind, M_bind.
    cbn [call_ListByOrg service trace]. rewrite Hcall.
    inversion Hnamed as [|? ? Hrl _]; subst.
    rewrite append_names_named by (by apply Hrl).
    rewrite decide_True by done.
    unfold listing_names. cbn. by rewrite app_nil_r.
  - cbn [GetAllRepositories_loop]. unfold mbind, M_bind.
    cbn [call_ListByOrg service trace]. rewrite Hcall.
    inversion Hnamed as [|? ? Hrl Hnamed']; subst.
    rewrite append_names_named by (by apply Hrl).
    rewrite decide_False by done.
    fold (next_page opts resp).
    rewrite (IH Hnamed') by lia.
    rewrite listing_error_cons by (by eapply listing_not_nil).
    cbn [map]. rewrite <- app_assoc. cbn [app].
    destruct (listing_error exs); [done|].
    unfold listing_names. cbn [map concat]. by rewrite <- app_assoc.
Qed.

(** Whatever the service does and however the loop ends, it makes no
    submission and writes nothing: it only lists. *)
Lemma GetAllRepositories_loop_trace fuel ic opts repos (w : World S) :
  ∃ evs,
    trace (GetAllRepositories_loop gh fuel ic opts repos w).1 = trace w ++ evs ∧
    submissions evs = [] ∧
    Forall (λ ev, ∀ t, call_token ev = Some t →
                       t = oauth2.AccessToken (github.token (client ic))) evs ∧
    ∀ c, (GetAllRepositories_loop gh fuel ic opts repos w).2 ≠ Exit c.
Proof.
  revert opts repos w. induction fuel as [|fuel IH]; intros opts repos [s tr].
  - exists []. simpl. by rewrite app_nil_r.
  - cbn [GetAllRepositories_loop]. unfold mbind, M_bind.
    cbn [call_ListByOrg service trace].
    destruct (github.Repositories_ListByOrg gh _ _ _ opts s)
      as [s1 [[rl resp] [e|]]] eqn:Hcall.
    + eexists [_]. cbn. split; [done|]. split; [done|].
      split; [|done]. constructor; [|done]. by intros t [= <-].
    + assert (Hnames : ∀ (w : World S),
                (∃ l, append_names repos rl w = (w, Ret l)) ∨
                (∃ m, append_names (S:=S) repos rl w = (w, Panic m))).
      { clear. revert repos. induction rl as [|r rl IHrl]; intros repos w.
        - left. by eexists.
        - cbn [append_names]. destruct (github.Name r); [apply IHrl|].
          right. by eexists. }
      destruct (Hnames {| service := s1; trace := tr ++ [ListByOrg (client ic) (org ic) opts (rl, resp, None)] |})
        as [[l ->]|[m ->]].
      * case_decide.
        -- eexists [_]. cbn. split; [done|]. split; [done|].
           split; [|done]. constructor; [|done]. by intros t [= <-].
        -- edestruct IH as (evs & -> & Hevs & Htok & Hexit).
           eexists (_ :: evs). cbn [trace]. rewrite <- app_assoc.
           split; [done|]. split; [done|].
           split; [|exact Hexit]. constructor; [|done]. by intros t [= <-].
      * eexists [_]. cbn. split; [done|]. split; [done|].
        split; [|done]. constructor; [|done]. by intros t [= <-].
Qed.

(** C3. The lister requests the first page and then each page the
    service announces, until a page announces none or a request fails.
    When no request fails it returns the names of all pages in the
    order received, unsorted and unfiltered, and no error; when a
    request fails it returns the fetch error and no list, whatever
    the earlier pages held. *)
Theorem C3_lister_pages_through ic (s : S) exs s' tr fuel :
  listing gh ic first_page s exs s' →
  named exs →
  (length exs ≤ fuel)%nat →
  ∃ w' res,
    GetAllRepositories gh fuel ic {| service := s; trace := tr |} = (w', Ret res) ∧
    service w' = s' ∧
    trace w' = tr ++ map (exchange_event ic) exs ∧
    (listing_error exs = None → res = (listing_names exs, None)) ∧
    (∀ e, listing_error exs = Some e →
          res = ([], Some ("failed to fetch repositories: " +:+ e))).
Proof.
  intros Hl Hn Hfuel. unfold GetAllRepositories. fold first_page.
  rewrite (GetAllRepositories_loop_run ic first_page s exs s' Hl Hn) by done.
  eexists _, _. split; [done|]. split; [done|]. split; [done|].
  split; [by intros ->|by intros e ->].
Qed.
End Lister.

(** ** The command *)

Section Command.
Context {S : Type} (gh : github.Service S).

Lemma split_and_trim_run (x : string) (w : World S) :
  split_and_trim x w = (w, Ret (trimmed x)).
Proof. unfold split_and_trim. by rewrite update_each_map. Qed.

Lemma runCreate_labelList_run (v : string → string) (w : World S) :
  runCreate_labelList (v "labels") w = (w, Ret (resolved_labels v)).
Proof.
  unfold runCreate_labelList, resolved_labels.
  case_decide; [apply split_and_trim_run|done].
Qed.

Lemma trimmed_not_nil (x : string) : trimmed x ≠ [].
Proof.
  unfold trimmed. pose proof (Split_not_nil x ",").
  by destruct (strings.Split x ",").
Qed.

Lemma NewIssueCreator_ok (v e : string → string) :
  resolved_token v e ≠ "" →
  NewIssueCreator (resolved_token v e) (v "org") (v "title") (v "description")
                  (resolved_labels v)
  = (Some (creator_of v e), None).
Proof. intros Ht. unfold NewIssueCreator. by rewrite decide_False. Qed.

(** A required field is missing: nothing happens but the error. *)
Lemma runCreate_invalid fuel v e (w : World S) :
  ¬ valid v → runCreate gh fuel v e w = (w, Ret (Some ValidationError)).
Proof.
  intros Hv. unfold runCreate. rewrite decide_True; [done|].
  unfold valid in Hv.
  destruct (decide (v "org" = "")); [tauto|].
  destruct (decide (v "title" = "")); [tauto|].
  destruct (decide (v "description" = "")); tauto.
Qed.

(** From a valid configuration on, [runCreate] is its three steps:
    the creator, the repository list, the report. *)
Lemma runCreate_valid fuel v e (w : World S) :
  valid v →
  runCreate gh fuel v e w =
    if decide (resolved_token v e = "") then (w, Ret (Some ConfigurationError))
    else
      match runCreate_repoList gh fuel (v "org") (v "repos") (creator_of v e) w with
      | (w1, Ret (repoList, None)) =>
          if decide (length repoList = 0%nat)
          then (w1, Ret (Some EmptyTargetError))
          else report gh (creator_of v e) repoList w1
      | (w1, Ret (_, Some err)) => (w1, Ret (Some (FetchError err)))
      | (w1, Exit c) => (w1, Exit c)
      | (w1, Panic m) => (w1, Panic m)
      | (w1, OutOfFuel) => (w1, OutOfFuel)
      end.
Proof.
  intros (Ho & Ht & Hd). unfold runCreate.
  rewrite decide_False by tauto.
  fold (resolved_token v e).
  unfold mbind at 1, M_bind at 1. rewrite runCreate_labelList_run.
  unfold NewIssueCreator. fold (creator_of v e).
  case_decide; [done|].
  unfold mbind at 1, M_bind at 1.
  destruct (runCreate_repoList gh fuel (v "org") (v "repos") (creator_of v e) w)
    as [w1 [[repoList [err|]]|c|m|]]; try done.
  case_decide; [done|].
  unfold report, mbind, M_bind, Printf, Println, emit,
    CreateIssuesInRepositories. cbn [service trace].
  destruct w1 as [s1 tr1].
  rewrite CreateIssues_loop_run. cbn [service trace].
  unfold header, summary. rewrite <- !app_assoc. cbn [app].
  by case_decide.
Qed.

(** The step "Get repositories" for an explicit list: no I/O, the
    list split and trimmed. *)
Lemma runCreate_repoList_explicit fuel org repos creator (w : World S) :
  repos ≠ "" →
  runCreate_repoList gh fuel org repos creator w = (w, Ret (trimmed repos, None)).
Proof.
  intros Hr. unfold runCreate_repoList. rewrite decide_True by done.
  unfold mbind, M_bind. by rewrite split_and_trim_run.
Qed.

(** The same step makes no submission, whatever it does. *)
Lemma runCreate_repoList_trace fuel org repos creator (w : World S) :
  ∃ evs,
    trace (runCreate_repoList gh fuel org repos creator w).1 = trace w ++ evs ∧
    submissions evs = [] ∧
    Forall (λ ev, ∀ t, call_token ev = Some t →
                       t = oauth2.AccessToken (github.token (client creator))) evs ∧
    ∀ c, (runCreate_repoList gh fuel org repos creator w).2 ≠ Exit c.
Proof.
  unfold runCreate_repoList. case_decide.
  - exists []. unfold mbind, M_bind. rewrite split_and_trim_run. cbn.
    by rewrite app_nil_r.
  - unfold mbind, M_bind, Printf, emit, GetAllRepositories. cbn [service trace].
    edestruct (GetAllRepositories_loop_trace gh fuel creator)
      as (evs & Htr & Hs & Ht & Hexit).
    eexists (_ :: evs). rewrite Htr. cbn [trace]. rewrite <- app_assoc.
    split; [done|]. split; [done|]. split; [|exact Hexit].
    constructor; [done|exact Ht].
Qed.

Lemma batch_trace_tokens ic repos ress :
  Forall (λ ev, ∀ t, call_token ev = Some t →
                     t = oauth2.AccessToken (github.token (client ic)))
         (batch_trace ic repos ress).
Proof.
  unfold batch_trace.
  revert ress. induction repos as [|r rest IH]; intros [|res ress];
    cbn [zip_with concat]; try by constructor.
  unfold progress at 1. cbn [app].
  constructor; [done|]. constructor; [by intros t [= <-]|].
  constructor; [done|]. apply IH.
Qed.

(** Every run of [runCreate] from a fresh trace has one of two shapes:
    it ends before the batch, with no submission made and neither a
    clean return nor an [os.Exit]; or it runs the batch over a
    non-empty list and ends on the failure counter. *)
Lemma runCreate_cases fuel v e (s : S) :
  let r := runCreate gh fuel v e (init_world s) in
  Forall (right_token v e) (trace r.1) ∧
  ((submissions (trace r.1) = [] ∧ r.2 ≠ Ret None ∧ (∀ c, r.2 ≠ Exit c)) ∨
   (∃ pre repoList ress,
      valid v ∧ resolved_token v e ≠ "" ∧
      repoList ≠ [] ∧ length ress = length repoList ∧ submissions pre = [] ∧
      trace r.1 = pre ++ batch_trace (creator_of v e) repoList ress
                  ++ summary (Nat.iter (count is_ok ress) incr 0)
                             (Nat.iter (count is_err ress) incr 0) ∧
      r.2 = if decide (Nat.iter (count is_err ress) incr 0 > 0)
            then Exit 1 else Ret None)).
Proof.
  intros r. subst r. destruct (decide (valid v)) as [Hv|Hv].
  2: { rewrite runCreate_invalid by done. cbn. split; [constructor|]. by left. }
  rewrite runCreate_valid by done. case_decide as Htok.
  { cbn. split; [constructor|]. by left. }
  destruct (runCreate_repoList_trace fuel (v "org") (v "repos") (creator_of v e)
              (init_world s)) as (evs & Htr & Hsub & Htoks & Hexit).
  cbn [init_world trace app] in Htr.
  destruct (runCreate_repoList gh fuel (v "org") (v "repos") (creator_of v e)
              (init_world s)) as [w1 o]. cbn [fst snd] in Htr, Hexit.
  destruct o as [[repoList [err|]]|c|m|];
    try (cbn [fst snd]; rewrite Htr; split; [exact Htoks|]; by left).
  2: { by destruct (Hexit c). }
  case_decide as Hlen.
  { cbn [fst snd]. rewrite Htr. split; [exact Htoks|]. by left. }
  unfold report. cbn [fst snd trace]. rewrite Htr. split.
  - apply Forall_app. split; [exact Htoks|].
    apply Forall_app. split; [by repeat constructor|].
    apply Forall_app. split; [|by repeat constructor].
    apply (batch_trace_tokens (creator_of v e)).
  - right.
    exists (evs ++ header (creator_of v e) (length repoList)), repoList,
      (answers gh (creator_of v e) repoList (service w1)).
    split; [done|]. split; [done|].
    split; [by destruct repoList|].
    split; [apply length_answers|].
    split; [by rewrite submissions_app, Hsub|].
    split; [by rewrite <- !app_assoc|done].
Qed.

(** [main] adds to [runCreate] the fatal log line of its error. *)
Lemma main_run fuel v e (w : World S) :
  main gh fuel v e w =
    match runCreate gh fuel v e w with
    | (w1, Ret (Some err)) =>
        ({| service := service w1;
            trace := trace w1 ++ [LogFatal ("Error: " +:+ err)] |}, Exit 1)
    | (w1, Ret None) => (w1, Ret tt)
    | (w1, Exit c) => (w1, Exit c)
    | (w1, Panic m) => (w1, Panic m)
    | (w1, OutOfFuel) => (w1, OutOfFuel)
    end.
Proof.
  unfold main, mbind, M_bind.
  by destruct (runCreate gh fuel v e w) as [w1 [[err|]|c|m|]].
Qed.
End Command.

Lemma C3_lister_pages_through_witness :
  listing Demo.gh Demo.ic_down first_page 0%nat Demo.down_exchanges 2%nat ∧
  named Demo.down_exchanges ∧
  (length Demo.down_exchanges ≤ 2)%nat ∧
  ∃ w' res,
    GetAllRepositories Demo.gh 2 Demo.ic_down {| service := 0%nat; trace := [] |}
      = (w', Ret res) ∧
    service w' = 2%nat ∧
    trace w' = [] ++ map (exchange_event Demo.ic_down) Demo.down_exchanges ∧
    (listing_error Demo.down_exchanges = None →
       res = (listing_names Demo.down_exchanges, None)) ∧
    (∀ e, listing_error Demo.down_exchanges = Some e →
          res = ([], Some ("failed to fetch repositories: " +:+ e))).
Proof.
  assert (Hl : listing Demo.gh Demo.ic_down first_page 0%nat Demo.down_exchanges 2%nat).
  { eapply listing_more; [reflexivity|discriminate|].
    eapply listing_failed. reflexivity. }
  assert (Hn : named Demo.down_exchanges).
  { repeat constructor; try discriminate. by eexists. }
  split; [exact Hl|]. split; [exact Hn|]. split; [simpl; lia|].
  apply (C3_lister_pages_through Demo.gh Demo.ic_down 0%nat Demo.down_exchanges
           2%nat [] 2 Hl Hn).
  simpl; lia.
Defined.

(** The two demonstration organizations, listed. *)
Example lister_acme :
  (GetAllRepositories Demo.gh 2 Demo.ic (init_world 0%nat)).2
  = Ret (["r1"; "r2"; "r3"], None).
Proof. reflexivity. Qed.

Example lister_down :
  (GetAllRepositories Demo.gh 2 Demo.ic_down (init_world 0%nat)).2
  = Ret ([], Some "failed to fetch repositories: 503 Service Unavailable").
Proof. reflexivity. Qed.

(** ** The entry point *)

Section CommandClaims.
Context {S : Type} (gh : github.Service S).

(** For a configuration with its required fields: every network call
    of the run carries the configured token when that is not empty, and
    the value of GITHUB_TOKEN otherwise; when both are empty, the
    construction of the creator fails with the "token required" error,
    the run returns the configuration error and has done nothing at
    all, and the process exits with status 1. *)
Lemma credential_carried fuel v e (s : S) :
  valid v →
  let r := runCreate gh fuel v e (init_world s) in
  (v "token" ≠ "" →
     Forall (λ ev, ∀ t, call_token ev = Some t → t = v "token") (trace r.1) ∧
     r.2 ≠ Ret (Some ConfigurationError)) ∧
  (v "token" = "" →
     Forall (λ ev, ∀ t, call_token ev = Some t → t = e "GITHUB_TOKEN")
            (trace r.1)) ∧
  (v "token" = "" → e "GITHUB_TOKEN" = "" →
     (NewIssueCreator "" (v "org") (v "title") (v "description")
                      (resolved_labels v)).1 = None ∧
     r = (init_world s, Ret (Some ConfigurationError)) ∧
     network_calls (trace r.1) = [] ∧
     exit_code (main gh fuel v e (init_world s)).2 = Some 1).
Proof.
  intros Hv r.
  destruct (runCreate_cases gh fuel v e s) as [Htok Hshape]. fold r in Htok, Hshape.
  split; [|split].
  - intros Ht. split.
    + eapply Forall_impl; [exact Htok|]. intros ev Hev t Hcall.
      rewrite (Hev t Hcall). unfold resolved_token. by rewrite decide_False.
    + subst r. rewrite runCreate_valid by done.
      rewrite decide_False by (unfold resolved_token; by rewrite decide_False).
      destruct (runCreate_repoList gh fuel _ _ _ _) as [w1 [[rl [err|]]|c|m|]];
        try done.
      case_decide; [done|]. unfold report. cbn [snd]. by case_decide.
  - intros Ht. eapply Forall_impl; [exact Htok|]. intros ev Hev t Hcall.
    rewrite (Hev t Hcall). unfold resolved_token. by rewrite decide_True.
  - intros Ht He.
    assert (Hr : r = (init_world s, Ret (Some ConfigurationError))).
    { subst r. rewrite runCreate_valid by done.
      rewrite decide_True; [done|]. unfold resolved_token.
      by rewrite decide_True. }
    split; [done|]. split; [done|]. rewrite main_run. fold r. by rewrite Hr.
Qed.

(** C5. For a configuration with its required fields and a credential:
    whenever the step that resolves the repository list yields an
    empty list, the run returns the empty-target error, no submission
    is made, and the process exits with status 1.  An empty list can
    only come from the enumeration of the organization: the repos
    option is then empty. *)
Theorem C5_empty_target fuel v e (w w1 : World S) repoList :
  valid v →
  resolved_token v e ≠ "" →
  runCreate_repoList gh fuel (v "org") (v "repos") (creator_of v e) w
    = (w1, Ret (repoList, None)) →
  repoList = [] →
  runCreate gh fuel v e w = (w1, Ret (Some EmptyTargetError)) ∧
  submissions (trace w1) = submissions (trace w) ∧
  exit_code (main gh fuel v e w).2 = Some 1 ∧
  submissions (trace (main gh fuel v e w).1) = submissions (trace w) ∧
  v "repos" = "".
Proof.
  intros Hv Htok Hlist ->.
  assert (Hrun : runCreate gh fuel v e w = (w1, Ret (Some EmptyTargetError))).
  { rewrite runCreate_valid by done. rewrite decide_False by done.
    rewrite Hlist. by rewrite decide_True. }
  destruct (runCreate_repoList_trace gh fuel (v "org") (v "repos") (creator_of v e) w)
    as (evs & Htr & Hsub & _).
  rewrite Hlist in Htr. cbn [fst] in Htr.
  assert (Hsubs : submissions (trace w1) = submissions (trace w))
    by (by rewrite Htr, submissions_app, Hsub, app_nil_r).
  split; [done|]. split; [done|].
  rewrite main_run, Hrun. cbn [fst snd trace exit_code].
  split; [done|]. split.
  - rewrite submissions_app, Hsubs. cbn. by rewrite app_nil_r.
  - destruct (decide (v "repos" = "")) as [|Hne]; [done|].
    rewrite runCreate_repoList_explicit in Hlist by done.
    inversion Hlist as [[Hw Hnil]]. by destruct (trimmed_not_nil (v "repos")).
Qed.

(** The failure counter of a batch that made fewer than 2^63
    submissions is positive exactly when a submission failed. *)
Lemma failure_counter_positive (ress : list (option error)) :
  Z.of_nat (length ress) ≤ int_max →
  Nat.iter (count is_err ress) incr 0 > 0 ↔ (0 < count is_err ress)%nat.
Proof.
  intros Hmax. destruct (counters_exact ress Hmax) as [_ ->]. lia.
Qed.

(** The process exits with status 0 exactly when the command ends
    without a fatal error (and without a panic) and no submission
    failed.  As soon as one submission failed the status is 1, however
    many succeeded, and so it is when the command returns any fatal
    error. *)
Lemma exit_code_cases fuel v e (s : S) :
  let r := runCreate gh fuel v e (init_world s) in
  let m := main gh fuel v e (init_world s) in
  let failures := count sub_failed (submissions (trace m.1)) in
  Z.of_nat (length (submissions (trace m.1))) ≤ int_max →
  (exit_code m.2 = Some 0 ↔
     failures = 0%nat ∧ (∀ err, r.2 ≠ Ret (Some err))
     ∧ (∀ msg, r.2 ≠ Panic msg) ∧ r.2 ≠ OutOfFuel) ∧
  ((0 < failures)%nat → exit_code m.2 = Some 1) ∧
  (∀ err, r.2 = Ret (Some err) → exit_code m.2 = Some 1) ∧
  (¬ valid v → exit_code m.2 = Some 1) ∧
  (valid v → resolved_token v e = "" → exit_code m.2 = Some 1).
Proof.
  intros r m failures. subst failures m. rewrite main_run. fold r.
  assert (Hinv : ¬ valid v → r = (init_world s, Ret (Some ValidationError)))
    by (intros; subst r; by apply runCreate_invalid).
  assert (Hcfg : valid v → resolved_token v e = "" →
                 r = (init_world s, Ret (Some ConfigurationError))).
  { intros Hv Ht. subst r. rewrite runCreate_valid by done.
    by rewrite decide_True. }
  destruct (runCreate_cases gh fuel v e s) as [_ Hshape]. fold r in Hshape.
  destruct r as [w1 o]. cbn [fst snd] in *.
  destruct Hshape as [(Hsub & Hnone & Hexit)
                     |(pre & repoList & ress & Hv & Htok & Hne & Hlen & Hpre & Htr & Ho)].
  - (* the command ended before the batch *)
    destruct o as [[err|]|c|m|]; cbn [fst snd trace exit_code];
      try done; try (by destruct (Hexit c)).
    + intros _. rewrite submissions_app, Hsub. cbn.
      split; [|done]. split; [done|]. intros (_ & H & _). by destruct (H err).
    + intros _. rewrite Hsub. cbn.
      split; [|split; [lia|]].
      * split; [done|]. intros (_ & _ & H & _). by destruct (H m).
      * split; [done|].
        split; [intros Hx; by specialize (Hinv Hx)|].
        intros Hx Hy. by specialize (Hcfg Hx Hy).
    + intros _. rewrite Hsub. cbn.
      split; [|split; [lia|]].
      * split; [done|]. by intros (_ & _ & _ & H).
      * split; [done|].
        split; [intros Hx; by specialize (Hinv Hx)|].
        intros Hx Hy. by specialize (Hcfg Hx Hy).
  - (* the batch ran *)
    assert (Hsubs : submissions (trace w1)
              = zip_with (λ repo res, (org (creator_of v e), repo,
                                        payload (creator_of v e), res))
                         repoList ress).
    { rewrite Htr, !submissions_app, Hpre, submissions_batch_trace. cbn.
      by rewrite app_nil_r. }
    assert (Hcount : count sub_failed (submissions (trace w1)) = count is_err ress)
      by (rewrite Hsubs; by apply zipped_failed).
    assert (Hnum : length (submissions (trace w1)) = length ress).
    { rewrite <- (length_map sub_repo), Hsubs, zipped_repos by done. done. }
    rewrite Ho. case_decide as Hpos; cbn [fst snd trace exit_code].
    + intros Hmax. rewrite Hcount. rewrite Hnum in Hmax.
      apply failure_counter_positive in Hpos; [|done].
      split; [|done]. split; [done|]. intros (H0 & _). lia.
    + intros Hmax. rewrite Hcount. rewrite Hnum in Hmax.
      assert (count is_err ress = 0%nat) as ->.
      { destruct (decide (0 < count is_err ress)%nat) as [Hc|Hc]; [|lia].
        apply failure_counter_positive in Hc; [lia|done]. }
      split; [done|]. split; [lia|]. split; [done|].
      split; intros; [tauto|done].
Qed.

(** C7. For a non-empty repos option the step that resolves the
    repository list does no I/O and yields the comma-separated fields
    of the option, each trimmed of white space, in the order written
    and as many times as written: there is one element per field (one
    more than there are commas), and the fields are the pieces that,
    joined by commas, give the option back. *)
Theorem C7_explicit_list fuel org repos creator (w : World S) :
  repos ≠ "" →
  runCreate_repoList gh fuel org repos creator w
    = (w, Ret (map strings.TrimSpace (strings.Split repos ","), None)) ∧
  length (map strings.TrimSpace (strings.Split repos ","))
    = Datatypes.S (count_sep repos ",") ∧
  strings.Join (strings.Split repos ",") "," = repos ∧
  Forall (λ field, count_sep field "," = 0%nat) (strings.Split repos ",") ∧
  (repos = "a, b ,c" →
     map strings.TrimSpace (strings.Split repos ",") = ["a"; "b"; "c"]) ∧
  (repos = "a, b,a" →
     map strings.TrimSpace (strings.Split repos ",") = ["a"; "b"; "a"]).
Proof.
  intros Hne. split; [by apply runCreate_repoList_explicit|].
  split; [by rewrite length_map, Split_length|].
  split; [apply Join_Split|]. split; [apply Split_no_sep|].
  split; by intros ->.
Qed.

(** In a run, every create-issue call carries the organization, title
    and body of the configuration and its label list (split and trimmed
    once), whatever the repository; and one call of [CreateIssue] sends
    the creator's organization and payload unchanged for any
    repository. *)
Lemma payload_of_submissions fuel v e (s : S) :
  Forall (λ x, sub_org x = v "org" ∧
               sub_req x = {| github.Title := Some (v "title");
                              github.Body := Some (v "description");
                              github.Labels := Some (resolved_labels v) |})
         (submissions (trace (main gh fuel v e (init_world s)).1)) ∧
  ∀ ic repo (w : World S),
    ∃ res, trace (CreateIssue gh ic repo w).1
           = trace w ++ [IssueCreate (client ic) (org ic) repo
                           {| github.Title := Some (title ic);
                              github.Body := Some (desc ic);
                              github.Labels := Some (labels ic) |} res].
Proof.
  split.
  - rewrite main_run.
    destruct (runCreate_cases gh fuel v e s) as [_ Hshape].
    destruct (runCreate gh fuel v e (init_world s)) as [w1 o]. cbn [fst snd] in *.
    assert (Hw1 : Forall (λ x, sub_org x = v "org" ∧
               sub_req x = {| github.Title := Some (v "title");
                              github.Body := Some (v "description");
                              github.Labels := Some (resolved_labels v) |})
              (submissions (trace w1))).
    { destruct Hshape as [(Hsub & _)
                         |(pre & repoList & ress & _ & _ & _ & _ & Hpre & Htr & _)].
      - rewrite Hsub. constructor.
      - rewrite Htr, !submissions_app, Hpre, submissions_batch_trace. cbn.
        rewrite app_nil_r. apply (zipped_payload (creator_of v e)). }
    destruct o as [[err|]|c|m|]; cbn [fst trace]; try done.
    rewrite submissions_app. cbn. by rewrite app_nil_r.
  - intros ic repo [s0 tr]. unfold CreateIssue, mbind, M_bind.
    cbn [call_IssuesCreate service trace].
    destruct (github.Issues_Create gh _ _ _ _ _ s0) as [s' [err|]];
      by eexists.
Qed.

(** C10. For a configuration with its required fields, a credential
    and a non-empty repos option, the resolved list is the option
    split and trimmed and has at least one element, so the run does
    not end with the empty-target error: it makes one submission per
    element, in order, also for empty names.  A lone comma resolves to
    two empty names and a lone blank to one. *)
Theorem C10_explicit_list_never_empty fuel v e (s : S) :
  valid v →
  resolved_token v e ≠ "" →
  v "repos" ≠ "" →
  let r := runCreate gh fuel v e (init_world s) in
  runCreate_repoList gh fuel (v "org") (v "repos") (creator_of v e) (init_world s)
    = (init_world s, Ret (trimmed (v "repos"), None)) ∧
  (1 ≤ length (trimmed (v "repos")))%nat ∧
  map sub_repo (submissions (trace r.1)) = trimmed (v "repos") ∧
  r.2 ≠ Ret (Some EmptyTargetError) ∧
  (v "repos" = "," → trimmed (v "repos") = [""; ""]) ∧
  (v "repos" = " " → trimmed (v "repos") = [""]).
Proof.
  intros Hv Htok Hrepos r.
  pose proof (runCreate_repoList_explicit gh fuel (v "org") (v "repos")
                (creator_of v e) (init_world s) Hrepos) as Hlist.
  pose proof (trimmed_not_nil (v "repos")) as Hnil.
  split; [done|].
  split; [destruct (trimmed (v "repos")); [done|simpl; lia]|].
  assert (Hr : r = report gh (creator_of v e) (trimmed (v "repos")) (init_world s)).
  { subst r. rewrite runCreate_valid by done. rewrite decide_False by done.
    rewrite Hlist. rewrite decide_False; [done|].
    by destruct (trimmed (v "repos")). }
  rewrite Hr. unfold report. cbn [fst snd trace init_world app].
  split.
  - rewrite !submissions_app, submissions_batch_trace. cbn.
    rewrite app_nil_r. apply (zipped_repos (creator_of v e)), length_answers.
  - split; [by case_decide|]. split; by intros ->.
Qed.
End CommandClaims.

(** ** The claims on the demonstration service *)

Lemma C5_empty_target_witness :
  valid (Demo.flags "void" "" "x") ∧
  resolved_token (Demo.flags "void" "" "x") Demo.no_env ≠ "" ∧
  runCreate Demo.gh 1 (Demo.flags "void" "" "x") Demo.no_env (init_world 0%nat)
    = ((runCreate_repoList Demo.gh 1 "void" ""
          (creator_of (Demo.flags "void" "" "x") Demo.no_env) (init_world 0%nat)).1,
       Ret (Some EmptyTargetError)) ∧
  exit_code (main Demo.gh 1 (Demo.flags "void" "" "x") Demo.no_env
               (init_world 0%nat)).2 = Some 1 ∧
  submissions (trace (main Demo.gh 1 (Demo.flags "void" "" "x") Demo.no_env
                        (init_world 0%nat)).1) = [].
Proof.
  assert (Hv : valid (Demo.flags "void" "" "x"))
    by (unfold valid; repeat split; vm_compute; discriminate).
  assert (Ht : resolved_token (Demo.flags "void" "" "x") Demo.no_env ≠ "")
    by (vm_compute; discriminate).
  split; [exact Hv|]. split; [exact Ht|].
  pose proof (C5_empty_target Demo.gh 1 (Demo.flags "void" "" "x") Demo.no_env
                (init_world 0%nat)
                (runCreate_repoList Demo.gh 1 "void" ""
                   (creator_of (Demo.flags "void" "" "x") Demo.no_env)
                   (init_world 0%nat)).1
                [] Hv Ht eq_refl eq_refl) as (Hrun & _ & Hexit & Hsub & _).
  split; [exact Hrun|]. split; [exact Hexit|exact Hsub].
Defined.

Lemma C7_explicit_list_witness :
  "a, b ,c" ≠ "" ∧
  runCreate_repoList Demo.gh 0 "acme" "a, b ,c" Demo.ic (init_world 0%nat)
    = (init_world 0%nat, Ret (["a"; "b"; "c"], None)).
Proof.
  assert (Hne : "a, b ,c" ≠ "") by discriminate.
  split; [exact Hne|].
  exact (proj1 (C7_explicit_list Demo.gh 0 "acme" "a, b ,c" Demo.ic
                  (init_world 0%nat) Hne)).
Defined.

Lemma C10_explicit_list_never_empty_witness :
  valid (Demo.flags "acme" "," "x") ∧
  resolved_token (Demo.flags "acme" "," "x") Demo.no_env ≠ "" ∧
  Demo.flags "acme" "," "x" "repos" ≠ "" ∧
  map sub_repo (submissions (trace
    (runCreate Demo.gh 0 (Demo.flags "acme" "," "x") Demo.no_env
       (init_world 0%nat)).1)) = trimmed (Demo.flags "acme" "," "x" "repos") ∧
  (runCreate Demo.gh 0 (Demo.flags "acme" "," "x") Demo.no_env
     (init_world 0%nat)).2 ≠ Ret (Some EmptyTargetError).
Proof.
  assert (Hv : valid (Demo.flags "acme" "," "x"))
    by (unfold valid; repeat split; vm_compute; discriminate).
  assert (Ht : resolved_token (Demo.flags "acme" "," "x") Demo.no_env ≠ "")
    by (vm_compute; discriminate).
  assert (Hr : Demo.flags "acme" "," "x" "repos" ≠ "")
    by (vm_compute; discriminate).
  split; [exact Hv|]. split; [exact Ht|]. split; [exact Hr|].
  pose proof (C10_explicit_list_never_empty Demo.gh 0 (Demo.flags "acme" "," "x")
                Demo.no_env 0%nat Hv Ht Hr) as (_ & _ & Hsub & Hend & _).
  split; [exact Hsub|exact Hend].
Defined.

(** The spec's scenario: r1 succeeds, r2 fails; both are submitted, the
    summary is 1 and 1, the process exits with status 1. *)
Example run_r1_r2 :
  let m := main Demo.gh 0 (Demo.flags "acme" "r1,r2" "x") Demo.no_env
             (init_world 0%nat) in
  map sub_repo (submissions (trace m.1)) = ["r1"; "r2"] ∧
  count sub_ok (submissions (trace m.1)) = 1%nat ∧
  count sub_failed (submissions (trace m.1)) = 1%nat ∧
  last (trace m.1) = Some (Stdout ("Summary: 1 succeeded, 1 failed" +:+ newline)) ∧
  exit_code m.2 = Some 1.
Proof. vm_compute. repeat split; reflexivity. Qed.

(** A run with no failure exits with status 0. *)
Example run_r1_r3 :
  exit_code (main Demo.gh 0 (Demo.flags "acme" "r1,r3" "x") Demo.no_env
               (init_world 0%nat)).2 = Some 0.
Proof. reflexivity. Qed.

(** A whole organization, with the token taken from the environment. *)
Example run_acme :
  let m := main Demo.gh 2 (Demo.flags "acme" "" "") Demo.env_token
             (init_world 0%nat) in
  map sub_repo (submissions (trace m.1)) = ["r1"; "r2"; "r3"] ∧
  Forall (λ ev, ∀ t, call_token ev = Some t → t = "t0k") (trace m.1) ∧
  exit_code m.2 = Some 1.
Proof.
  cbv zeta. split; [reflexivity|]. split; [|reflexivity].
  vm_compute. repeat constructor; intros t H; inversion H; reflexivity.
Qed.

(** A lone blank names one repository, the empty name. *)
Example run_blank :
  map sub_repo (submissions (trace
    (main Demo.gh 0 (Demo.flags "acme" " " "x") Demo.no_env (init_world 0%nat)).1))
  = [""].
Proof. reflexivity. Qed.


(** * Further properties of the program *)

(** ** Lists written with commas *)

Lemma Split_trailing_sep (x : string) (sep : ascii) :
  strings.Split (x +:+ String sep "") sep = strings.Split x sep ++ [""].
Proof.
  induction x as [|c x IH].
  - rewrite append_nil_l. simpl. by rewrite Ascii.eqb_refl.
  - rewrite append_cons. simpl. rewrite IH.
    pose proof (Split_not_nil x sep) as Hne.
    destruct (Ascii.eqb c sep); [done|].
    by destruct (strings.Split x sep).
Qed.

Section Lists.
Context {S : Type} (gh : github.Service S).

(** X2. The label list of a run: an empty labels option gives the empty
    list (the option is not split at all); any other gives the
    comma-separated fields, each trimmed, one per field.  The step does
    no I/O and its indexed loop stays in range. *)
Theorem X2_label_list (labels : string) (w : World S) :
  ∃ l,
    runCreate_labelList labels w = (w, Ret l) ∧
    (labels = "" → l = []) ∧
    (labels ≠ "" →
       l = map strings.TrimSpace (strings.Split labels ",") ∧
       length l = Datatypes.S (count_sep labels ",")).
Proof.
  unfold runCreate_labelList. case_decide as Hl.
  - eexists. split; [apply split_and_trim_run|]. split; [done|]. intros _.
    split; [done|]. unfold trimmed. by rewrite length_map, Split_length.
  - exists []. split; [done|]. split; [done|]. intros H. by destruct Hl.
Qed.

(** X12. Every name of an explicitly given repository list comes out
    with no white-space rune at its beginning or at its end. *)
Theorem X12_resolved_names_have_no_outer_space fuel org repos creator
    (w : World S) :
  repos ≠ "" →
  ∃ l,
    runCreate_repoList gh fuel org repos creator w = (w, Ret (l, None)) ∧
    Forall no_outer_space l.
Proof.
  intros Hne. exists (trimmed repos).
  split; [by apply runCreate_repoList_explicit|].
  unfold trimmed. apply Forall_map, Forall_forall. intros x _.
  split; [apply TrimSpace_no_leading|apply TrimSpace_no_trailing].
Qed.

(** X13. A comma at the end of the repos option adds one more
    repository, the empty name, after the others; the same holds for
    the labels option. *)
Theorem X13_trailing_comma_adds_empty_name fuel org x creator (w : World S) :
  runCreate_repoList gh fuel org (x +:+ ",") creator w
    = (w, Ret (map strings.TrimSpace (strings.Split x ",") ++ [""], None)) ∧
  runCreate_labelList (x +:+ ",") w
    = (w, Ret (map strings.TrimSpace (strings.Split x ",") ++ [""])).
Proof.
  assert (Hne : x +:+ "," ≠ "") by (by destruct x).
  assert (Ht : trimmed (x +:+ ",")
               = map strings.TrimSpace (strings.Split x ",") ++ [""]).
  { unfold trimmed. by rewrite Split_trailing_sep, map_app. }
  split.
  - rewrite runCreate_repoList_explicit by done. by rewrite Ht.
  - unfold runCreate_labelList. rewrite decide_True by done.
    rewrite split_and_trim_run. by rewrite Ht.
Qed.
End Lists.

Lemma X12_resolved_names_have_no_outer_space_witness :
  "  r1 ,r2  " ≠ "" ∧
  ∃ l,
    runCreate_repoList Demo.gh 0 "acme" "  r1 ,r2  " Demo.ic (init_world 0%nat)
      = (init_world 0%nat, Ret (l, None)) ∧
    Forall no_outer_space l.
Proof.
  assert (Hne : "  r1 ,r2  " ≠ "") by discriminate.
  split; [exact Hne|].
  exact (X12_resolved_names_have_no_outer_space Demo.gh 0 "acme" "  r1 ,r2  "
           Demo.ic (init_world 0%nat) Hne).
Defined.

(** ** More on the batch orchestrator *)

Section BatchMore.
Context {S : Type} (gh : github.Service S).

Lemma answers_app ic l1 l2 (s : S) :
  answers gh ic (l1 ++ l2) s
  = answers gh ic l1 s ++ answers gh ic l2 (after_answers gh ic l1 s).
Proof.
  revert s. induction l1 as [|r l1 IH]; intros s; [done|]. cbn [app answers after_answers].
  destruct (github.Issues_Create gh _ _ _ _ _ s) as [s1 res]. by rewrite IH.
Qed.

Lemma after_answers_app ic l1 l2 (s : S) :
  after_answers gh ic (l1 ++ l2) s
  = after_answers gh ic l2 (after_answers gh ic l1 s).
Proof.
  revert s. induction l1 as [|r l1 IH]; intros s; [done|]. cbn [app after_answers].
  by destruct (github.Issues_Create gh _ _ _ _ _ s) as [s1 res].
Qed.

Lemma batch_trace_app ic l1 l2 r1 r2 :
  length r1 = length l1 →
  batch_trace ic (l1 ++ l2) (r1 ++ r2)
  = batch_trace ic l1 r1 ++ batch_trace ic l2 r2.
Proof.
  intros Hlen. unfold batch_trace.
  rewrite zip_with_app by done. by rewrite concat_app.
Qed.

Lemma count_app {A} (p : A → bool) (l1 l2 : list A) :
  count p (l1 ++ l2) = (count p l1 + count p l2)%nat.
Proof. unfold count. by rewrite filter_app, length_app. Qed.

Lemma count_le_length {A} (p : A → bool) (l : list A) :
  (count p l ≤ length l)%nat.
Proof. unfold count. apply length_filter. Qed.

(** X8. Batches compose: a batch over [l1 ++ l2] does what a batch over
    [l1] followed, in the world it leaves, by a batch over [l2] does,
    and its counters are the sums of theirs. *)
Theorem X8_batches_compose ic l1 l2 (w w1 w2 : World S) a1 b1 a2 b2 :
  Z.of_nat (length (l1 ++ l2)) ≤ int_max →
  CreateIssuesInRepositories gh ic l1 w = (w1, Ret (a1, b1)) →
  CreateIssuesInRepositories gh ic l2 w1 = (w2, Ret (a2, b2)) →
  CreateIssuesInRepositories gh ic (l1 ++ l2) w = (w2, Ret (a1 + a2, b1 + b2)).
Proof.
  unfold CreateIssuesInRepositories. rewrite !CreateIssues_loop_run.
  rewrite length_app. intros Hmax [= <- <- <-] [= <- <- <-].
  cbn [service trace].
  pose proof (length_answers gh ic l1 (service w)) as H1.
  pose proof (length_answers gh ic l2 (after_answers gh ic l1 (service w))) as H2.
  rewrite answers_app, after_answers_app, batch_trace_app, !count_app by done.
  rewrite <- app_assoc.
  set (r1 := answers gh ic l1 (service w)) in *.
  set (r2 := answers gh ic l2 (after_answers gh ic l1 (service w))) in *.
  pose proof (count_le_length is_ok r1). pose proof (count_le_length is_ok r2).
  pose proof (count_le_length is_err r1). pose proof (count_le_length is_err r2).
  rewrite !iter_incr by lia. do 3 f_equal; lia.
Qed.

(** X9. Nothing is remembered between two batches: running the same
    list twice submits to every repository twice, in list order each
    time. *)
Theorem X9_second_batch_submits_again ic repos (w : World S) :
  ∃ w1 w2 c1 c2 evs,
    CreateIssuesInRepositories gh ic repos w = (w1, Ret c1) ∧
    CreateIssuesInRepositories gh ic repos w1 = (w2, Ret c2) ∧
    trace w2 = trace w ++ evs ∧
    map sub_repo (submissions evs) = repos ++ repos.
Proof.
  destruct (batch_submissions gh ic repos w) as (r1 & _ & Hrun1 & Hrep1 & _).
  set (w1 := {| service := after_answers gh ic repos (service w);
                trace := trace w ++ batch_trace ic repos r1 |}) in *.
  destruct (batch_submissions gh ic repos w1) as (r2 & _ & Hrun2 & Hrep2 & _).
  eexists _, _, _, _, (batch_trace ic repos r1 ++ batch_trace ic repos r2).
  split; [exact Hrun1|]. split; [exact Hrun2|].
  split; [by rewrite app_assoc|].
  by rewrite submissions_app, map_app, Hrep1, Hrep2.
Qed.
End BatchMore.

Lemma X8_batches_compose_witness :
  Z.of_nat (length (["r1"] ++ ["r2"; "r3"])) ≤ int_max ∧
  (CreateIssuesInRepositories Demo.gh Demo.ic (["r1"] ++ ["r2"; "r3"])
     (init_world 0%nat)).2 = Ret (1 + 1, 0 + 1).
Proof.
  assert (Hmax : Z.of_nat (length (["r1"] ++ ["r2"; "r3"])) ≤ int_max)
    by (vm_compute; discriminate).
  split; [exact Hmax|].
  rewrite (X8_batches_compose Demo.gh Demo.ic ["r1"] ["r2"; "r3"]
             (init_world 0%nat)
             (CreateIssuesInRepositories Demo.gh Demo.ic ["r1"] (init_world 0%nat)).1
             (CreateIssuesInRepositories Demo.gh Demo.ic ["r2"; "r3"]
                (CreateIssuesInRepositories Demo.gh Demo.ic ["r1"]
                   (init_world 0%nat)).1).1
             1 0 1 1 Hmax eq_refl eq_refl).
  reflexivity.
Defined.

(** ** More on the repository lister *)

Section ListerMore.
Context {S : Type} (gh : github.Service S).

(** Collecting the names of a page returns or panics, and leaves the
    world alone. *)
Lemma append_names_cases repos rl (w : World S) :
  (∃ l, append_names repos rl w = (w, Ret l)) ∨
  (∃ m, append_names (S:=S) repos rl w = (w, Panic m)).
Proof.
  revert repos. induction rl as [|r rl IH]; intros repos.
  - left. by eexists.
  - cbn [append_names]. destruct (github.Name r); [apply IH|].
    right. by eexists.
Qed.

Lemma append_names_unnamed repos rl (w : World S) :
  Exists (λ r, github.Name r = None) rl →
  append_names repos rl w
  = (w, Panic "invalid memory address or nil pointer dereference").
Proof.
  intros Hex. revert repos. induction rl as [|r rl IH]; intros repos.
  - inversion Hex.
  - cbn [append_names]. destruct (github.Name r) eqn:E; [|done].
    apply IH. inversion Hex; subst; [congruence|done].
Qed.

Lemma loop_requests fuel ic opts repos (w : World S) :
  github.PerPage (github.ListOptions_ opts) = 100 →
  ∃ evs,
    trace (GetAllRepositories_loop gh fuel ic opts repos w).1 = trace w ++ evs ∧
    Forall (listing_request ic) evs ∧
    (length evs ≤ fuel)%nat ∧
    (∀ ev, head evs = Some ev → ∃ res, ev = ListByOrg (client ic) (org ic) opts res) ∧
    ((1 ≤ fuel)%nat → evs ≠ []).
Proof.
  revert opts repos w. induction fuel as [|fuel IH]; intros opts repos [s tr] Hpp.
  - exists []. simpl. rewrite app_nil_r. repeat split; try done. lia.
  - cbn [GetAllRepositories_loop]. unfold mbind, M_bind.
    cbn [call_ListByOrg service trace].
    destruct (github.Repositories_ListByOrg gh _ _ _ opts s)
      as [s1 [[rl resp] err]] eqn:Hcall.
    assert (Hreq : listing_request ic (ListByOrg (client ic) (org ic) opts (rl, resp, err)))
      by (by eexists _, _).
    assert (Hone : ∀ (w' : World S) (o : outcome (list string * option error)),
              trace w' = tr ++ [ListByOrg (client ic) (org ic) opts (rl, resp, err)] →
              ∃ evs, trace (w', o).1 = tr ++ evs ∧ Forall (listing_request ic) evs ∧
                (length evs ≤ Datatypes.S fuel)%nat ∧
                (∀ ev, head evs = Some ev →
                       ∃ res, ev = ListByOrg (client ic) (org ic) opts res) ∧
                ((1 ≤ Datatypes.S fuel)%nat → evs ≠ [])).
    { intros w' o Hw'. eexists [_]. split; [exact Hw'|].
      split; [by constructor|]. split; [simpl; lia|].
      split; [|done]. intros ev [= <-]. by eexists. }
    destruct err as [e|]; [by apply Hone|].
    destruct (append_names_cases repos rl
                {| service := s1;
                   trace := tr ++ [ListByOrg (client ic) (org ic) opts (rl, resp, None)] |})
      as [[l ->]|[m ->]]; [|by apply Hone].
    case_decide; [by apply Hone|].
    edestruct (IH {| github.ListOptions_ :=
                       {| github.Page := github.NextPage resp;
                          github.PerPage := github.PerPage (github.ListOptions_ opts) |} |})
      as (evs & -> & Hevs & Hlen & _); [done|].
    eexists (_ :: evs). cbn [trace]. rewrite <- app_assoc.
    split; [done|]. split; [by constructor|]. split; [simpl; lia|].
    split; [|done]. intros ev [= <-]. by eexists.
Qed.

(** X5. Whatever the service answers and however the lister ends, all
    it does is request pages of its own organization with its own
    client, 100 repositories per page; it begins with page 0 and makes
    at most one request per unit of fuel. *)
Theorem X5_lister_only_lists fuel ic (w : World S) :
  ∃ evs,
    trace (GetAllRepositories gh fuel ic w).1 = trace w ++ evs ∧
    Forall (listing_request ic) evs ∧
    (length evs ≤ fuel)%nat ∧
    (∀ ev, head evs = Some ev →
           ∃ res, ev = ListByOrg (client ic) (org ic) first_page res) ∧
    ((1 ≤ fuel)%nat → evs ≠ []).
Proof. unfold GetAllRepositories. by apply loop_requests. Qed.

Lemma endless_loop fuel ic opts repos (w : World S) :
  (∀ opts s, ∃ s' rl resp,
     github.Repositories_ListByOrg gh (client ic) (ctx ic) (org ic) opts s
       = (s', (rl, resp, None)) ∧
     github.NextPage resp ≠ 0 ∧
     Forall (λ r, is_Some (github.Name r)) rl) →
  ∃ evs,
    (GetAllRepositories_loop gh fuel ic opts repos w).2 = OutOfFuel ∧
    trace (GetAllRepositories_loop gh fuel ic opts repos w).1 = trace w ++ evs ∧
    length evs = fuel ∧
    Forall (λ ev, is_listing ev = true) evs.
Proof.
  intros Hsvc.
  revert opts repos w. induction fuel as [|fuel IH]; intros opts repos [s tr].
  - exists []. simpl. by rewrite app_nil_r.
  - cbn [GetAllRepositories_loop]. unfold mbind, M_bind.
    cbn [call_ListByOrg service trace].
    destruct (Hsvc opts s) as (s' & rl & resp & -> & Hnext & Hnamed).
    rewrite append_names_named by done. rewrite decide_False by done.
    edestruct IH as (evs & -> & -> & Hlen & Hall).
    eexists (_ :: evs). split; [done|]. cbn [trace]. rewrite <- app_assoc.
    split; [done|]. split; [simpl; by rewrite Hlen|]. by constructor.
Qed.

(** X6. The lister puts no bound on the number of pages: against a
    service that always announces a next page it never returns; every
    unit of fuel goes into one more request. *)
Theorem X6_endless_pagination fuel ic (w : World S) :
  (∀ opts s, ∃ s' rl resp,
     github.Repositories_ListByOrg gh (client ic) (ctx ic) (org ic) opts s
       = (s', (rl, resp, None)) ∧
     github.NextPage resp ≠ 0 ∧
     Forall (λ r, is_Some (github.Name r)) rl) →
  ∃ evs,
    (GetAllRepositories gh fuel ic w).2 = OutOfFuel ∧
    trace (GetAllRepositories gh fuel ic w).1 = trace w ++ evs ∧
    length evs = fuel ∧
    Forall (λ ev, is_listing ev = true) evs.
Proof. intros Hsvc. unfold GetAllRepositories. by apply endless_loop. Qed.

(** X7. The lister dereferences the name of every repository it is
    given: when the first page holds a repository without a name, the
    lister panics after that one request; a run that lists then makes no
    submission and the process dies with status 2. *)
Theorem X7_unnamed_repository_panics fuel v e (s s' : S) rl resp :
  valid v →
  resolved_token v e ≠ "" →
  v "repos" = "" →
  (1 ≤ fuel)%nat →
  github.Repositories_ListByOrg gh (client (creator_of v e)) (ctx (creator_of v e))
    (org (creator_of v e)) first_page s = (s', (rl, resp, None)) →
  Exists (λ r, github.Name r = None) rl →
  GetAllRepositories gh fuel (creator_of v e) (init_world s)
    = ({| service := s';
          trace := [ListByOrg (client (creator_of v e)) (org (creator_of v e))
                      first_page (rl, resp, None)] |},
       Panic "invalid memory address or nil pointer dereference") ∧
  exit_code (main gh fuel v e (init_world s)).2 = Some 2 ∧
  submissions (trace (main gh fuel v e (init_world s)).1) = [].
Proof.
  intros Hv Htok Hrepos Hfuel Hcall Hex.
  destruct fuel as [|fuel]; [lia|].
  assert (Hloop : ∀ tr,
            GetAllRepositories gh (Datatypes.S fuel) (creator_of v e)
              {| service := s; trace := tr |}
            = ({| service := s';
                  trace := tr ++ [ListByOrg (client (creator_of v e))
                                    (org (creator_of v e)) first_page (rl, resp, None)] |},
               Panic "invalid memory address or nil pointer dereference")).
  { intros tr. unfold GetAllRepositories. fold first_page.
    cbn [GetAllRepositories_loop]. unfold mbind, M_bind.
    cbn [call_ListByOrg service trace]. rewrite Hcall.
    by rewrite append_names_unnamed. }
  split; [apply (Hloop [])|].
  rewrite main_run, runCreate_valid by done. rewrite decide_False by done.
  unfold runCreate_repoList. rewrite decide_False by (by rewrite Hrepos; intros []).
  unfold mbind, M_bind, Printf, emit. cbn [init_world service trace app].
  by rewrite Hloop.
Qed.
End ListerMore.

Lemma X6_endless_pagination_witness :
  (∀ opts s, ∃ s' rl resp,
     github.Repositories_ListByOrg Edge.endless (client Demo.ic) (ctx Demo.ic)
       (org Demo.ic) opts s = (s', (rl, resp, None)) ∧
     github.NextPage resp ≠ 0 ∧
     Forall (λ r, is_Some (github.Name r)) rl) ∧
  ∃ evs,
    (GetAllRepositories Edge.endless 5 Demo.ic (init_world 0%nat)).2 = OutOfFuel ∧
    trace (GetAllRepositories Edge.endless 5 Demo.ic (init_world 0%nat)).1
      = trace (init_world 0%nat) ++ evs ∧
    length evs = 5%nat ∧
    Forall (λ ev, is_listing ev = true) evs.
Proof.
  assert (Hsvc : ∀ opts s, ∃ s' rl resp,
     github.Repositories_ListByOrg Edge.endless (client Demo.ic) (ctx Demo.ic)
       (org Demo.ic) opts s = (s', (rl, resp, None)) ∧
     github.NextPage resp ≠ 0 ∧
     Forall (λ r, is_Some (github.Name r)) rl).
  { intros opts s. eexists _, _, _. split; [reflexivity|].
    split; [discriminate|]. repeat constructor. by eexists. }
  split; [exact Hsvc|].
  exact (X6_endless_pagination Edge.endless 5 Demo.ic (init_world 0%nat) Hsvc).
Defined.

Lemma X7_unnamed_repository_panics_witness :
  valid (Demo.flags "acme" "" "x") ∧
  resolved_token (Demo.flags "acme" "" "x") Demo.no_env ≠ "" ∧
  exit_code (main Edge.unnamed 1 (Demo.flags "acme" "" "x") Demo.no_env
               (init_world 0%nat)).2 = Some 2 ∧
  submissions (trace (main Edge.unnamed 1 (Demo.flags "acme" "" "x") Demo.no_env
                        (init_world 0%nat)).1) = [].
Proof.
  assert (Hv : valid (Demo.flags "acme" "" "x"))
    by (unfold valid; repeat split; vm_compute; discriminate).
  assert (Ht : resolved_token (Demo.flags "acme" "" "x") Demo.no_env ≠ "")
    by (vm_compute; discriminate).
  split; [exact Hv|]. split; [exact Ht|].
  assert (Hex : Exists (λ r, github.Name r = None)
                  [{| github.Name := Some "a" |}; {| github.Name := None |}])
    by (apply Exists_cons_tl, Exists_cons_hd; reflexivity).
  assert (Hfuel : (1 ≤ 1)%nat) by lia.
  exact (proj2 (X7_unnamed_repository_panics Edge.unnamed 1
                  (Demo.flags "acme" "" "x") Demo.no_env 0%nat 1%nat _
                  {| github.NextPage := 0 |} Hv Ht eq_refl Hfuel eq_refl Hex)).
Defined.

(** ** More on the command *)

Section CommandMore.
Context {S : Type} (gh : github.Service S).

(** The step "Get repositories" when the organization is enumerated
    and the pagination ends. *)
Lemma runCreate_repoList_listed fuel creator (s s' : S) tr exs :
  listing gh creator first_page s exs s' →
  named exs →
  (length exs ≤ fuel)%nat →
  runCreate_repoList gh fuel (org creator) "" creator {| service := s; trace := tr |}
  = ({| service := s';
        trace := tr ++ fetching (org creator) :: map (exchange_event creator) exs |},
     Ret match listing_error exs with
         | Some e => ([], Some (FetchError e))
         | None => (listing_names exs, None)
         end).
Proof.
  intros Hl Hn Hfuel. unfold runCreate_repoList.
  rewrite decide_False by (by intros []).
  unfold mbind, M_bind, Printf, emit, GetAllRepositories. cbn [service trace].
  fold first_page.
  rewrite (GetAllRepositories_loop_run gh creator first_page s exs s' Hl Hn) by done.
  by rewrite <- app_assoc.
Qed.

Lemma network_calls_batch_trace ic repos ress :
  length ress = length repos →
  length (network_calls (batch_trace ic repos ress)) = length repos ∧
  Forall (λ ev, is_listing ev = false) (batch_trace ic repos ress).
Proof.
  unfold batch_trace.
  revert ress. induction repos as [|r rest IH]; intros [|res ress] Hlen;
    try done. simpl in Hlen.
  destruct (IH ress) as [IHn IHl]; [lia|].
  cbn [zip_with concat]. split.
  - rewrite network_calls_app, length_app, IHn. reflexivity.
  - apply Forall_app. split; [by repeat constructor|done].
Qed.

Lemma network_calls_header ic n : network_calls (header ic n) = [].
Proof. reflexivity. Qed.

Lemma network_calls_summary a b : network_calls (summary a b) = [].
Proof. reflexivity. Qed.

(** X1. Validation comes first: when the organization, the title or
    the description is empty, the command returns the validation error
    and has done nothing, whatever the token, the repository list and
    the service; the process logs the error and exits with status 1. *)
Theorem X1_validation_comes_first fuel v e (w : World S) :
  v "org" = "" ∨ v "title" = "" ∨ v "description" = "" →
  runCreate gh fuel v e w = (w, Ret (Some ValidationError)) ∧
  main gh fuel v e w
    = ({| service := service w;
          trace := trace w ++ [LogFatal ("Error: " +:+ ValidationError)] |},
       Exit 1).
Proof.
  intros Hmiss.
  assert (Hrun : runCreate gh fuel v e w = (w, Ret (Some ValidationError))).
  { apply runCreate_invalid. unfold valid. tauto. }
  split; [done|]. by rewrite main_run, Hrun.
Qed.

(** X3. When a page request fails while the organization is enumerated,
    the command returns the cause wrapped twice in the fetch message,
    whatever the earlier pages held; nothing was submitted, nothing but
    the fetch notice was written, and the process exits with status 1. *)
Theorem X3_fetch_failure_aborts_run fuel v e (s s' : S) exs cause :
  valid v →
  resolved_token v e ≠ "" →
  v "repos" = "" →
  listing gh (creator_of v e) first_page s exs s' →
  named exs →
  listing_error exs = Some cause →
  (length exs ≤ fuel)%nat →
  runCreate gh fuel v e (init_world s)
    = ({| service := s';
          trace := fetching (v "org") :: map (exchange_event (creator_of v e)) exs |},
       Ret (Some (FetchError (FetchError cause)))) ∧
  submissions (trace (main gh fuel v e (init_world s)).1) = [] ∧
  exit_code (main gh fuel v e (init_world s)).2 = Some 1.
Proof.
  intros Hv Htok Hrepos Hl Hn Herr Hfuel.
  assert (Hrun : runCreate gh fuel v e (init_world s)
    = ({| service := s';
          trace := fetching (v "org") :: map (exchange_event (creator_of v e)) exs |},
       Ret (Some (FetchError (FetchError cause))))).
  { rewrite runCreate_valid by done. rewrite decide_False by done.
    rewrite Hrepos.
    change (v "org") with (org (creator_of v e)).
    unfold init_world.
    rewrite (runCreate_repoList_listed fuel (creator_of v e) s s' [] exs Hl Hn Hfuel).
    by rewrite Herr. }
  split; [exact Hrun|]. rewrite main_run, Hrun. cbn [fst snd trace exit_code].
  split; [|done].
  change (fetching (v "org") :: map (exchange_event (creator_of v e)) exs
          ++ [LogFatal ("Error: " +:+ FetchError (FetchError cause))])
    with ([fetching (v "org")] ++ map (exchange_event (creator_of v e)) exs
          ++ [LogFatal ("Error: " +:+ FetchError (FetchError cause))]).
  rewrite !submissions_app. cbn. rewrite app_nil_r.
  clear. induction exs as [|x exs IH]; [done|]. exact IH.
Qed.

(** X4. When the organization is enumerated and has repositories, the
    batch runs over the names in the order the pages delivered them:
    the trace is the fetch notice, the page requests, the header, the
    batch and the summary, and the submissions go to the listed names
    in order. *)
Theorem X4_enumeration_feeds_batch fuel v e (s s' : S) exs :
  valid v →
  resolved_token v e ≠ "" →
  v "repos" = "" →
  listing gh (creator_of v e) first_page s exs s' →
  named exs →
  listing_error exs = None →
  listing_names exs ≠ [] →
  (length exs ≤ fuel)%nat →
  ∃ ress a b,
    length ress = length (listing_names exs) ∧
    trace (runCreate gh fuel v e (init_world s)).1
      = fetching (v "org") :: map (exchange_event (creator_of v e)) exs
        ++ header (creator_of v e) (length (listing_names exs))
        ++ batch_trace (creator_of v e) (listing_names exs) ress
        ++ summary a b ∧
    map sub_repo (submissions (trace (runCreate gh fuel v e (init_world s)).1))
      = listing_names exs.
Proof.
  intros Hv Htok Hrepos Hl Hn Herr Hne Hfuel.
  rewrite runCreate_valid by done. rewrite decide_False by done.
  rewrite Hrepos. change (v "org") with (org (creator_of v e)).
  unfold init_world.
  rewrite (runCreate_repoList_listed fuel (creator_of v e) s s' [] exs Hl Hn Hfuel).
  rewrite Herr. rewrite decide_False by (by destruct (listing_names exs)).
  unfold report. cbn [fst snd service trace app].
  exists (answers gh (creator_of v e) (listing_names exs) s').
  eexists _, _. split; [apply length_answers|]. split; [done|].
  change (fetching (org (creator_of v e)) :: ?l) with ([fetching (org (creator_of v e))] ++ l).
  rewrite !submissions_app, submissions_batch_trace.
  assert (Hex : submissions (map (exchange_event (creator_of v e)) exs) = []).
  { clear. induction exs as [|x exs IH]; [done|]. exact IH. }
  rewrite Hex. cbn. rewrite app_nil_r.
  apply (zipped_repos (creator_of v e)), length_answers.
Qed.

(** X10. An explicit repository list is used as it is: the run never
    asks the listing endpoint (no name is checked before it is
    submitted to), and it makes exactly one network call per field of
    the repos option. *)
Theorem X10_explicit_list_is_not_checked fuel v e (s : S) :
  valid v →
  resolved_token v e ≠ "" →
  v "repos" ≠ "" →
  Forall (λ ev, is_listing ev = false)
         (trace (runCreate gh fuel v e (init_world s)).1) ∧
  length (network_calls (trace (runCreate gh fuel v e (init_world s)).1))
    = Datatypes.S (count_sep (v "repos") ",").
Proof.
  intros Hv Htok Hrepos.
  rewrite runCreate_valid by done. rewrite decide_False by done.
  rewrite runCreate_repoList_explicit by done.
  rewrite decide_False by (pose proof (trimmed_not_nil (v "repos"));
                           by destruct (trimmed (v "repos"))).
  unfold report. cbn [fst snd service trace init_world app].
  destruct (network_calls_batch_trace (creator_of v e) (trimmed (v "repos"))
              (answers gh (creator_of v e) (trimmed (v "repos")) s))
    as [Hn Hl]; [apply length_answers|].
  split.
  - apply Forall_app. split; [by repeat constructor|].
    apply Forall_app. split; [exact Hl|by repeat constructor].
  - rewrite !network_calls_app, !length_app, Hn.
    rewrite network_calls_header, network_calls_summary.
    unfold trimmed. rewrite length_map, Split_length. simpl. lia.
Qed.

(** X11. Once the batch has run, the last thing written is the summary
    line, with the number of submissions that succeeded and the number
    that failed; it is written also when the process then exits with
    status 1. *)
Theorem X11_summary_reports_counts fuel v e (s : S) :
  let r := runCreate gh fuel v e (init_world s) in
  r.2 = Ret None ∨ r.2 = Exit 1 →
  Z.of_nat (length (submissions (trace r.1))) ≤ int_max →
  last (trace r.1)
  = Some (Stdout ("Summary: "
                  +:+ itoa (Z.of_nat (count sub_ok (submissions (trace r.1))))
                  +:+ " succeeded, "
                  +:+ itoa (Z.of_nat (count sub_failed (submissions (trace r.1))))
                  +:+ " failed" +:+ newline)).
Proof.
  intros r Hend Hmax.
  destruct (runCreate_cases gh fuel v e s) as [_ Hshape]. fold r in Hshape.
  destruct Hshape as [(_ & Hnone & Hexit)
                     |(pre & repoList & ress & _ & _ & _ & Hlen & Hpre & Htr & _)].
  { destruct Hend as [H|H]; [by destruct Hnone|by destruct (Hexit 1)]. }
  assert (Hsubs : submissions (trace r.1)
            = zip_with (λ repo res, (org (creator_of v e), repo,
                                      payload (creator_of v e), res))
                       repoList ress).
  { rewrite Htr, !submissions_app, Hpre, submissions_batch_trace. cbn.
    by rewrite app_nil_r. }
  assert (Hnum : length (submissions (trace r.1)) = length ress).
  { rewrite <- (length_map sub_repo), Hsubs, zipped_repos by done. done. }
  rewrite Hnum in Hmax. destruct (counters_exact ress Hmax) as [Ha Hb].
  rewrite Hsubs, zipped_ok, zipped_failed by done.
  rewrite Htr, Ha, Hb. unfold summary.
  rewrite !app_assoc. rewrite last_app. done.
Qed.

(** X14. With an explicit repository list the command always comes to
    an end, by returning no error or by exiting with status 1: it
    neither panics nor loops, and the fuel plays no part. *)
Theorem X14_explicit_list_run_ends fuel v e (w : World S) :
  valid v →
  resolved_token v e ≠ "" →
  v "repos" ≠ "" →
  ((runCreate gh fuel v e w).2 = Ret None ∨ (runCreate gh fuel v e w).2 = Exit 1) ∧
  (exit_code (main gh fuel v e w).2 = Some 0 ∨
   exit_code (main gh fuel v e w).2 = Some 1) ∧
  main gh fuel v e w = main gh 0 v e w.
Proof.
  intros Hv Htok Hrepos.
  assert (Hrun : ∀ n, runCreate gh n v e w
                      = report gh (creator_of v e) (trimmed (v "repos")) w).
  { intros n. rewrite runCreate_valid by done. rewrite decide_False by done.
    rewrite runCreate_repoList_explicit by done.
    rewrite decide_False; [done|].
    pose proof (trimmed_not_nil (v "repos")). by destruct (trimmed (v "repos")). }
  rewrite !main_run, !Hrun. unfold report. cbn [fst snd].
  case_decide; cbn; tauto.
Qed.
End CommandMore.

(** ** The further properties on the demonstration service *)

Lemma X1_validation_comes_first_witness :
  (Demo.flags "" "r1" "x" "org" = "" ∨ Demo.flags "" "r1" "x" "title" = ""
   ∨ Demo.flags "" "r1" "x" "description" = "") ∧
  runCreate Demo.gh 3 (Demo.flags "" "r1" "x") Demo.env_token (init_world 0%nat)
    = (init_world 0%nat, Ret (Some ValidationError)).
Proof.
  assert (Hmiss : Demo.flags "" "r1" "x" "org" = ""
                  ∨ Demo.flags "" "r1" "x" "title" = ""
                  ∨ Demo.flags "" "r1" "x" "description" = "")
    by (left; reflexivity).
  split; [exact Hmiss|].
  exact (proj1 (X1_validation_comes_first Demo.gh 3 (Demo.flags "" "r1" "x")
                  Demo.env_token (init_world 0%nat) Hmiss)).
Defined.

Lemma X3_fetch_failure_aborts_run_witness :
  valid (Demo.flags "down" "" "t0k") ∧
  resolved_token (Demo.flags "down" "" "t0k") Demo.no_env ≠ "" ∧
  listing Demo.gh (creator_of (Demo.flags "down" "" "t0k") Demo.no_env)
    first_page 0%nat Demo.down_exchanges 2%nat ∧
  named Demo.down_exchanges ∧
  listing_error Demo.down_exchanges = Some "503 Service Unavailable" ∧
  (runCreate Demo.gh 2 (Demo.flags "down" "" "t0k") Demo.no_env (init_world 0%nat)).2
    = Ret (Some (FetchError (FetchError "503 Service Unavailable"))) ∧
  exit_code (main Demo.gh 2 (Demo.flags "down" "" "t0k") Demo.no_env
               (init_world 0%nat)).2 = Some 1.
Proof.
  assert (Hv : valid (Demo.flags "down" "" "t0k"))
    by (unfold valid; repeat split; vm_compute; discriminate).
  assert (Ht : resolved_token (Demo.flags "down" "" "t0k") Demo.no_env ≠ "")
    by (vm_compute; discriminate).
  assert (Hl : listing Demo.gh (creator_of (Demo.flags "down" "" "t0k") Demo.no_env)
                 first_page 0%nat Demo.down_exchanges 2%nat).
  { eapply listing_more; [reflexivity|discriminate|].
    eapply listing_failed. reflexivity. }
  assert (Hn : named Demo.down_exchanges).
  { repeat constructor; try discriminate. by eexists. }
  assert (Hfuel : (length Demo.down_exchanges ≤ 2)%nat) by (simpl; lia).
  split; [exact Hv|]. split; [exact Ht|]. split; [exact Hl|]. split; [exact Hn|].
  split; [reflexivity|].
  pose proof (X3_fetch_failure_aborts_run Demo.gh 2 (Demo.flags "down" "" "t0k")
                Demo.no_env 0%nat 2%nat Demo.down_exchanges "503 Service Unavailable"
                Hv Ht eq_refl Hl Hn eq_refl Hfuel) as (Hrun & _ & Hexit).
  split; [by rewrite Hrun|exact Hexit].
Defined.

Lemma X4_enumeration_feeds_batch_witness :
  valid (Demo.flags "acme" "" "t0k") ∧
  resolved_token (Demo.flags "acme" "" "t0k") Demo.no_env ≠ "" ∧
  listing Demo.gh (creator_of (Demo.flags "acme" "" "t0k") Demo.no_env)
    first_page 0%nat Demo.acme_exchanges 2%nat ∧
  named Demo.acme_exchanges ∧
  listing_names Demo.acme_exchanges ≠ [] ∧
  map sub_repo (submissions (trace
    (runCreate Demo.gh 2 (Demo.flags "acme" "" "t0k") Demo.no_env
       (init_world 0%nat)).1)) = listing_names Demo.acme_exchanges.
Proof.
  assert (Hv : valid (Demo.flags "acme" "" "t0k"))
    by (unfold valid; repeat split; vm_compute; discriminate).
  assert (Ht : resolved_token (Demo.flags "acme" "" "t0k") Demo.no_env ≠ "")
    by (vm_compute; discriminate).
  assert (Hl : listing Demo.gh (creator_of (Demo.flags "acme" "" "t0k") Demo.no_env)
                 first_page 0%nat Demo.acme_exchanges 2%nat).
  { eapply listing_more; [reflexivity|discriminate|].
    eapply listing_last; reflexivity. }
  assert (Hn : named Demo.acme_exchanges).
  { repeat constructor; by eexists. }
  assert (Hne : listing_names Demo.acme_exchanges ≠ []) by discriminate.
  assert (Hfuel : (length Demo.acme_exchanges ≤ 2)%nat) by (simpl; lia).
  split; [exact Hv|]. split; [exact Ht|]. split; [exact Hl|]. split; [exact Hn|].
  split; [exact Hne|].
  pose proof (X4_enumeration_feeds_batch Demo.gh 2 (Demo.flags "acme" "" "t0k")
                Demo.no_env 0%nat 2%nat Demo.acme_exchanges
                Hv Ht eq_refl Hl Hn eq_refl Hne Hfuel) as (ress & a & b & _ & _ & H).
  exact H.
Defined.

Lemma X10_explicit_list_is_not_checked_witness :
  valid (Demo.flags "acme" "nope,r1" "x") ∧
  resolved_token (Demo.flags "acme" "nope,r1" "x") Demo.no_env ≠ "" ∧
  Demo.flags "acme" "nope,r1" "x" "repos" ≠ "" ∧
  length (network_calls (trace
    (runCreate Demo.gh 0 (Demo.flags "acme" "nope,r1" "x") Demo.no_env
       (init_world 0%nat)).1))
    = Datatypes.S (count_sep (Demo.flags "acme" "nope,r1" "x" "repos") ",").
Proof.
  assert (Hv : valid (Demo.flags "acme" "nope,r1" "x"))
    by (unfold valid; repeat split; vm_compute; discriminate).
  assert (Ht : resolved_token (Demo.flags "acme" "nope,r1" "x") Demo.no_env ≠ "")
    by (vm_compute; discriminate).
  assert (Hr : Demo.flags "acme" "nope,r1" "x" "repos" ≠ "")
    by (vm_compute; discriminate).
  split; [exact Hv|]. split; [exact Ht|]. split; [exact Hr|].
  exact (proj2 (X10_explicit_list_is_not_checked Demo.gh 0
                  (Demo.flags "acme" "nope,r1" "x") Demo.no_env 0%nat Hv Ht Hr)).
Defined.

Lemma X11_summary_reports_counts_witness :
  ((runCreate Demo.gh 0 (Demo.flags "acme" "r1,r2,r3" "x") Demo.no_env
      (init_world 0%nat)).2 = Ret None
   ∨ (runCreate Demo.gh 0 (Demo.flags "acme" "r1,r2,r3" "x") Demo.no_env
        (init_world 0%nat)).2 = Exit 1) ∧
  Z.of_nat (length (submissions (trace
    (runCreate Demo.gh 0 (Demo.flags "acme" "r1,r2,r3" "x") Demo.no_env
       (init_world 0%nat)).1))) ≤ int_max ∧
  last (trace (runCreate Demo.gh 0 (Demo.flags "acme" "r1,r2,r3" "x") Demo.no_env
                 (init_world 0%nat)).1)
  = Some (Stdout ("Summary: 2 succeeded, 1 failed" +:+ newline)).
Proof.
  assert (Hend : (runCreate Demo.gh 0 (Demo.flags "acme" "r1,r2,r3" "x") Demo.no_env
                    (init_world 0%nat)).2 = Ret None
                 ∨ (runCreate Demo.gh 0 (Demo.flags "acme" "r1,r2,r3" "x") Demo.no_env
                      (init_world 0%nat)).2 = Exit 1)
    by (right; reflexivity).
  assert (Hmax : Z.of_nat (length (submissions (trace
            (runCreate Demo.gh 0 (Demo.flags "acme" "r1,r2,r3" "x") Demo.no_env
               (init_world 0%nat)).1))) ≤ int_max)
    by (vm_compute; discriminate).
  split; [exact Hend|]. split; [exact Hmax|].
  rewrite (X11_summary_reports_counts Demo.gh 0 (Demo.flags "acme" "r1,r2,r3" "x")
             Demo.no_env 0%nat Hend Hmax).
  reflexivity.
Defined.

Lemma X14_explicit_list_run_ends_witness :
  valid (Demo.flags "acme" "r1,r3" "x") ∧
  resolved_token (Demo.flags "acme" "r1,r3" "x") Demo.no_env ≠ "" ∧
  Demo.flags "acme" "r1,r3" "x" "repos" ≠ "" ∧
  main Demo.gh 9 (Demo.flags "acme" "r1,r3" "x") Demo.no_env (init_world 0%nat)
    = main Demo.gh 0 (Demo.flags "acme" "r1,r3" "x") Demo.no_env (init_world 0%nat).
Proof.
  assert (Hv : valid (Demo.flags "acme" "r1,r3" "x"))
    by (unfold valid; repeat split; vm_compute; discriminate).
  assert (Ht : resolved_token (Demo.flags "acme" "r1,r3" "x") Demo.no_env ≠ "")
    by (vm_compute; discriminate).
  assert (Hr : Demo.flags "acme" "r1,r3" "x" "repos" ≠ "")
    by (vm_compute; discriminate).
  split; [exact Hv|]. split; [exact Ht|]. split; [exact Hr|].
  exact (proj2 (proj2 (X14_explicit_list_run_ends Demo.gh 9
                         (Demo.flags "acme" "r1,r3" "x") Demo.no_env
                         (init_world 0%nat) Hv Ht Hr))).
Defined.

(** ** The entry point: credential, exit status, payload *)

Section EntryPoint.
Context {S : Type} (gh : github.Service S).

(** The batch over a non-empty list makes a call with the creator's
    token. *)
Lemma batch_trace_has_call ic repo rest ress :
  length ress = length (repo :: rest) →
  Exists (λ ev, call_token ev
                = Some (oauth2.AccessToken (github.token (client ic))))
         (batch_trace ic (repo :: rest) ress).
Proof.
  destruct ress as [|res ress]; [done|]. intros _.
  unfold batch_trace. cbn [zip_with concat]. apply Exists_app. left.
  unfold progress. apply Exists_cons_tl, Exists_cons_hd. reflexivity.
Qed.

(** With fuel for one request, the step that enumerates the
    organization makes a call with the creator's token. *)
Lemma runCreate_repoList_has_call fuel org creator (w : World S) :
  (1 ≤ fuel)%nat →
  Exists (λ ev, call_token ev
                = Some (oauth2.AccessToken (github.token (client creator))))
         (trace (runCreate_repoList gh fuel org "" creator w).1).
Proof.
  intros Hfuel. unfold runCreate_repoList.
  rewrite decide_False by (by intros []).
  unfold mbind, M_bind, Printf, emit, GetAllRepositories. cbn [service trace].
  edestruct (loop_requests gh fuel creator) as (evs & -> & Hreq & _ & _ & Hne);
    [reflexivity|].
  apply Exists_app. right.
  destruct evs as [|ev evs]; [by destruct (Hne Hfuel)|].
  apply Exists_cons_hd. inversion Hreq as [|? ? (opts & res & -> & _) _]; subst.
  reflexivity.
Qed.

(** What [runCreate] leaves in the trace extends what the step "Get
    repositories" left. *)
Lemma runCreate_extends fuel v e (w : World S) :
  valid v →
  resolved_token v e ≠ "" →
  ∃ more,
    trace (runCreate gh fuel v e w).1
    = trace (runCreate_repoList gh fuel (v "org") (v "repos") (creator_of v e) w).1
      ++ more.
Proof.
  intros Hv Htok. rewrite runCreate_valid by done. rewrite decide_False by done.
  destruct (runCreate_repoList gh fuel (v "org") (v "repos") (creator_of v e) w)
    as [w1 [[repoList [err|]]|c|m|]]; cbn [fst];
    try (exists []; by rewrite app_nil_r).
  case_decide; [exists []; by rewrite app_nil_r|].
  unfold report. cbn [fst trace]. by eexists.
Qed.

(** A run with a credential gets past the construction of the creator,
    and its network calls are made with that credential: there is one
    as soon as a repository list is given or the enumeration has fuel
    for a request. *)
Lemma runCreate_uses_token fuel v e (s : S) :
  valid v →
  resolved_token v e ≠ "" →
  (runCreate gh fuel v e (init_world s)).2 ≠ Ret (Some ConfigurationError) ∧
  (v "repos" ≠ "" ∨ (1 ≤ fuel)%nat →
   Exists (λ ev, call_token ev = Some (resolved_token v e))
          (trace (runCreate gh fuel v e (init_world s)).1)).
Proof.
  intros Hv Htok. split.
  - rewrite runCreate_valid by done. rewrite decide_False by done.
    destruct (runCreate_repoList gh fuel _ _ _ _) as [w1 [[rl [err|]]|c|m|]];
      try done.
    case_decide; [done|]. unfold report. cbn [snd]. by case_decide.
  - intros Hcall. destruct (decide (v "repos" = "")) as [Hrepos|Hrepos].
    + destruct Hcall as [Hcall|Hfuel]; [done|].
      destruct (runCreate_extends fuel v e (init_world s) Hv Htok) as (more & ->).
      apply Exists_app. left. rewrite Hrepos.
      apply (runCreate_repoList_has_call fuel (v "org") (creator_of v e)
               (init_world s) Hfuel).
    + rewrite runCreate_valid by done. rewrite decide_False by done.
      rewrite runCreate_repoList_explicit by done.
      pose proof (trimmed_not_nil (v "repos")) as Hnil.
      destruct (trimmed (v "repos")) as [|repo rest] eqn:Hlist; [done|].
      rewrite decide_False by done.
      unfold report. cbn [fst trace init_world app].
      apply Exists_app. right. apply Exists_app. left.
      apply (batch_trace_has_call (creator_of v e)), length_answers.
Qed.

(** C4. For a configuration with its required fields.  When the token
    option is not empty the creator is built with it: the run does not
    end with the configuration error and its network calls carry that
    token, whatever GITHUB_TOKEN holds.  When the option is empty,
    GITHUB_TOKEN is consulted: if it is not empty the creator is built
    with its value, the run does not end with the configuration error
    and its network calls carry that value; if it is empty too, the
    construction of the creator fails with the "token required" error,
    the run returns the configuration error having done nothing at all
    (no network call), and the process exits with status 1.  In the
    two first cases a network call is indeed made as soon as a
    repository list is given or the enumeration starts. *)
Theorem C4_credential_resolution fuel v e (s : S) :
  valid v →
  let r := runCreate gh fuel v e (init_world s) in
  (v "token" ≠ "" →
     Forall (λ ev, ∀ t, call_token ev = Some t → t = v "token") (trace r.1) ∧
     r.2 ≠ Ret (Some ConfigurationError) ∧
     (v "repos" ≠ "" ∨ (1 ≤ fuel)%nat →
      Exists (λ ev, call_token ev = Some (v "token")) (trace r.1))) ∧
  (v "token" = "" →
     Forall (λ ev, ∀ t, call_token ev = Some t → t = e "GITHUB_TOKEN")
            (trace r.1)) ∧
  (v "token" = "" → e "GITHUB_TOKEN" ≠ "" →
     (NewIssueCreator (e "GITHUB_TOKEN") (v "org") (v "title") (v "description")
                      (resolved_labels v)).2 = None ∧
     r.2 ≠ Ret (Some ConfigurationError) ∧
     (v "repos" ≠ "" ∨ (1 ≤ fuel)%nat →
      Exists (λ ev, call_token ev = Some (e "GITHUB_TOKEN")) (trace r.1))) ∧
  (v "token" = "" → e "GITHUB_TOKEN" = "" →
     (NewIssueCreator "" (v "org") (v "title") (v "description")
                      (resolved_labels v)).1 = None ∧
     r = (init_world s, Ret (Some ConfigurationError)) ∧
     network_calls (trace r.1) = [] ∧
     exit_code (main gh fuel v e (init_world s)).2 = Some 1).
Proof.
  intros Hv r.
  destruct (credential_carried gh fuel v e s Hv) as (Hflag & Henv & Hnone).
  fold r in Hflag, Henv, Hnone.
  split; [|split; [exact Henv|split; [|exact Hnone]]].
  - intros Ht. destruct (Hflag Ht) as [Hall Hcfg].
    split; [exact Hall|]. split; [exact Hcfg|].
    assert (Hres : resolved_token v e = v "token")
      by (unfold resolved_token; by rewrite decide_False).
    destruct (runCreate_uses_token fuel v e s Hv) as [_ Hex];
      [by rewrite Hres|].
    fold r in Hex. by rewrite Hres in Hex.
  - intros Ht He.
    assert (Hres : resolved_token v e = e "GITHUB_TOKEN")
      by (unfold resolved_token; by rewrite decide_True).
    destruct (runCreate_uses_token fuel v e s Hv) as [Hcfg Hex];
      [by rewrite Hres|].
    fold r in Hcfg, Hex. rewrite Hres in Hex.
    split; [|done]. unfold NewIssueCreator. by rewrite decide_False.
Qed.

(** The step "Get repositories", started from a fresh trace, leaves no
    submission behind. *)
Lemma runCreate_repoList_no_submission fuel v e (s : S) w1 o :
  runCreate_repoList gh fuel (v "org") (v "repos") (creator_of v e) (init_world s)
    = (w1, o) →
  submissions (trace w1) = [].
Proof.
  intros Hlist.
  destruct (runCreate_repoList_trace gh fuel (v "org") (v "repos") (creator_of v e)
              (init_world s)) as (evs & Htr & Hsub & _).
  rewrite Hlist in Htr. cbn [fst init_world trace app] in Htr. by rewrite Htr.
Qed.

(** C6. The process exits with status 0 exactly when the command ends
    without a fatal error (and without a panic) and no submission
    failed.  As soon as one submission failed the status is 1, however
    many succeeded.  Each fatal error ends in status 1: a missing
    required field, an unresolved credential, a failed enumeration
    (the step that resolves the list returns an error; in particular a
    page request of the service failed) and an empty target (that step
    returns the empty list; in particular the organization lists no
    repository). *)
Theorem C6_exit_code fuel v e (s : S) :
  let r := runCreate gh fuel v e (init_world s) in
  let m := main gh fuel v e (init_world s) in
  let failures := count sub_failed (submissions (trace m.1)) in
  Z.of_nat (length (submissions (trace m.1))) ≤ int_max →
  (exit_code m.2 = Some 0 ↔
     failures = 0%nat ∧ (∀ err, r.2 ≠ Ret (Some err))
     ∧ (∀ msg, r.2 ≠ Panic msg) ∧ r.2 ≠ OutOfFuel) ∧
  ((0 < failures)%nat → exit_code m.2 = Some 1) ∧
  (∀ err, r.2 = Ret (Some err) → exit_code m.2 = Some 1) ∧
  (¬ valid v →
     r.2 = Ret (Some ValidationError) ∧ exit_code m.2 = Some 1) ∧
  (valid v → resolved_token v e = "" →
     r.2 = Ret (Some ConfigurationError) ∧ exit_code m.2 = Some 1) ∧
  (valid v → resolved_token v e ≠ "" →
   ∀ w1 repoList err,
     runCreate_repoList gh fuel (v "org") (v "repos") (creator_of v e)
       (init_world s) = (w1, Ret (repoList, Some err)) →
     r.2 = Ret (Some (FetchError err)) ∧ exit_code m.2 = Some 1) ∧
  (valid v → resolved_token v e ≠ "" →
   ∀ w1,
     runCreate_repoList gh fuel (v "org") (v "repos") (creator_of v e)
       (init_world s) = (w1, Ret ([], None)) →
     r.2 = Ret (Some EmptyTargetError) ∧ exit_code m.2 = Some 1) ∧
  (valid v → resolved_token v e ≠ "" → v "repos" = "" →
   ∀ exs s',
     listing gh (creator_of v e) first_page s exs s' →
     named exs →
     (length exs ≤ fuel)%nat →
     (∀ cause, listing_error exs = Some cause →
        r.2 = Ret (Some (FetchError (FetchError cause)))
        ∧ exit_code m.2 = Some 1) ∧
     (listing_error exs = None → listing_names exs = [] →
        r.2 = Ret (Some EmptyTargetError) ∧ exit_code m.2 = Some 1)).
Proof.
  intros r m failures Hmax.
  destruct (exit_code_cases gh fuel v e s Hmax) as (Hiff & Hfail & Herr & Hinv & Hcfg).
  fold r m failures in Hiff, Hfail, Herr, Hinv, Hcfg.
  assert (Hfetch : valid v → resolved_token v e ≠ "" →
            ∀ w1 repoList err,
              runCreate_repoList gh fuel (v "org") (v "repos") (creator_of v e)
                (init_world s) = (w1, Ret (repoList, Some err)) →
              r.2 = Ret (Some (FetchError err)) ∧ exit_code m.2 = Some 1).
  { intros Hv Htok w1 repoList err Hlist.
    assert (Hr : r.2 = Ret (Some (FetchError err))).
    { subst r. rewrite runCreate_valid by done. rewrite decide_False by done.
      by rewrite Hlist. }
    split; [exact Hr|]. by apply (Herr (FetchError err)). }
  assert (Hempty : valid v → resolved_token v e ≠ "" →
            ∀ w1,
              runCreate_repoList gh fuel (v "org") (v "repos") (creator_of v e)
                (init_world s) = (w1, Ret ([], None)) →
              r.2 = Ret (Some EmptyTargetError) ∧ exit_code m.2 = Some 1).
  { intros Hv Htok w1 Hlist.
    assert (Hr : r.2 = Ret (Some EmptyTargetError)).
    { subst r. rewrite runCreate_valid by done. rewrite decide_False by done.
      rewrite Hlist. by rewrite decide_True. }
    split; [exact Hr|]. by apply (Herr EmptyTargetError). }
  split; [exact Hiff|]. split; [exact Hfail|]. split; [exact Herr|].
  split.
  { intros Hv. split; [|by apply Hinv].
    subst r. by rewrite runCreate_invalid. }
  split.
  { intros Hv Ht. split; [|by apply Hcfg].
    subst r. rewrite runCreate_valid by done. by rewrite decide_True. }
  split; [exact Hfetch|]. split; [exact Hempty|].
  intros Hv Htok Hrepos exs s' Hl Hn Hfuel.
  assert (Hlist :
    runCreate_repoList gh fuel (v "org") (v "repos") (creator_of v e) (init_world s)
    = ({| service := s';
          trace := [] ++ fetching (v "org")
                   :: map (exchange_event (creator_of v e)) exs |},
       Ret match listing_error exs with
           | Some e => ([], Some (FetchError e))
           | None => (listing_names exs, None)
           end)).
  { rewrite Hrepos.
    exact (runCreate_repoList_listed gh fuel (creator_of v e) s s' [] exs
             Hl Hn Hfuel). }
  split.
  - intros cause Hcause. rewrite Hcause in Hlist.
    by apply (Hfetch Hv Htok _ _ _ Hlist).
  - intros Hnone Hnames. rewrite Hnone, Hnames in Hlist.
    by apply (Hempty Hv Htok _ Hlist).
Qed.

(** C9. Every repository of a run receives the same payload.  For
    every repository list the orchestrator makes one create-issue call
    per repository, the [i]-th for the [i]-th repository, each with the
    creator's organization, title, body and labels, unchanged.  In a
    whole run, whatever list the command resolves, the [i]-th
    submission is for its [i]-th repository and carries the
    organization, title and description of the configuration and its
    label list, split and trimmed once; and no submission of the run
    carries anything else. *)
Theorem C9_same_payload_everywhere fuel v e (s : S) :
  (∀ ic repos (w : World S),
     ∃ w' counts evs,
       CreateIssuesInRepositories gh ic repos w = (w', Ret counts) ∧
       trace w' = trace w ++ evs ∧
       length (submissions evs) = length repos ∧
       ∀ i repo, repos !! i = Some repo →
         ∃ res, submissions evs !! i
                = Some (org ic, repo,
                        {| github.Title := Some (title ic);
                           github.Body := Some (desc ic);
                           github.Labels := Some (labels ic) |}, res)) ∧
  (valid v → resolved_token v e ≠ "" →
   ∀ w1 repoList,
     runCreate_repoList gh fuel (v "org") (v "repos") (creator_of v e)
       (init_world s) = (w1, Ret (repoList, None)) →
     length (submissions (trace (main gh fuel v e (init_world s)).1))
       = length repoList ∧
     ∀ i repo, repoList !! i = Some repo →
       ∃ res, submissions (trace (main gh fuel v e (init_world s)).1) !! i
              = Some (v "org", repo,
                      {| github.Title := Some (v "title");
                         github.Body := Some (v "description");
                         github.Labels := Some (resolved_labels v) |}, res)) ∧
  Forall (λ x, sub_org x = v "org" ∧
               sub_req x = {| github.Title := Some (v "title");
                              github.Body := Some (v "description");
                              github.Labels := Some (resolved_labels v) |})
         (submissions (trace (main gh fuel v e (init_world s)).1)) ∧
  ∀ ic repo (w : World S),
    ∃ res, trace (CreateIssue gh ic repo w).1
           = trace w ++ [IssueCreate (client ic) (org ic) repo
                           {| github.Title := Some (title ic);
                              github.Body := Some (desc ic);
                              github.Labels := Some (labels ic) |} res].
Proof.
  split; [|split; [|apply payload_of_submissions]].
  - intros ic repos w.
    destruct (batch_submissions gh ic repos w) as (ress & Hlen & Hrun & Hrepos & _).
    eexists _, _, (batch_trace ic repos ress).
    split; [exact Hrun|]. split; [done|].
    split; [by rewrite <- Hrepos at 2; rewrite length_map|].
    intros i repo Hi. rewrite submissions_batch_trace.
    by apply (zipped_lookup ic).
  - intros Hv Htok w1 repoList Hlist.
    pose proof (runCreate_repoList_no_submission fuel v e s w1 _ Hlist) as Hnosub.
    rewrite main_run, runCreate_valid by done. rewrite decide_False by done.
    rewrite Hlist. case_decide as Hlen.
    + cbn [fst trace]. rewrite submissions_app, Hnosub. cbn.
      split; [done|]. intros i repo Hi. destruct repoList; [done|].
      by simpl in Hlen.
    + unfold report.
      assert (Hsubs :
        submissions (trace w1 ++ header (creator_of v e) (length repoList)
                     ++ batch_trace (creator_of v e) repoList
                          (answers gh (creator_of v e) repoList (service w1))
                     ++ summary
                          (Nat.iter (count is_ok
                             (answers gh (creator_of v e) repoList (service w1)))
                             incr 0)
                          (Nat.iter (count is_err
                             (answers gh (creator_of v e) repoList (service w1)))
                             incr 0))
        = zip_with (λ repo res, (org (creator_of v e), repo,
                                  payload (creator_of v e), res))
                   repoList (answers gh (creator_of v e) repoList (service w1))).
      { rewrite !submissions_app, Hnosub, submissions_batch_trace. cbn.
        by rewrite app_nil_r. }
      case_decide; cbn [fst trace]; rewrite Hsubs.
      * split.
        -- rewrite <- (length_map sub_repo).
           rewrite (zipped_repos (creator_of v e)) by apply length_answers. done.
        -- intros i repo Hi.
           by apply (zipped_lookup (creator_of v e)), Hi; apply length_answers.
      * split.
        -- rewrite <- (length_map sub_repo).
           rewrite (zipped_repos (creator_of v e)) by apply length_answers. done.
        -- intros i repo Hi.
           by apply (zipped_lookup (creator_of v e)), Hi; apply length_answers.
Qed.
End EntryPoint.

Lemma C4_credential_resolution_witness :
  valid (Demo.flags "acme" "r1,r2" "") ∧
  Demo.flags "acme" "r1,r2" "" "token" = "" ∧
  Demo.env_token "GITHUB_TOKEN" ≠ "" ∧
  (runCreate Demo.gh 1 (Demo.flags "acme" "r1,r2" "") Demo.env_token
     (init_world 0%nat)).2 ≠ Ret (Some ConfigurationError) ∧
  Exists (λ ev, call_token ev = Some (Demo.env_token "GITHUB_TOKEN"))
         (trace (runCreate Demo.gh 1 (Demo.flags "acme" "r1,r2" "") Demo.env_token
                   (init_world 0%nat)).1) ∧
  runCreate Demo.gh 1 (Demo.flags "acme" "r1,r2" "") Demo.no_env (init_world 0%nat)
    = (init_world 0%nat, Ret (Some ConfigurationError)) ∧
  exit_code (main Demo.gh 1 (Demo.flags "acme" "r1,r2" "") Demo.no_env
               (init_world 0%nat)).2 = Some 1.
Proof.
  assert (Hv : valid (Demo.flags "acme" "r1,r2" ""))
    by (unfold valid; repeat split; vm_compute; discriminate).
  assert (He : Demo.env_token "GITHUB_TOKEN" ≠ "") by (vm_compute; discriminate).
  assert (Hr : Demo.flags "acme" "r1,r2" "" "repos" ≠ "")
    by (vm_compute; discriminate).
  split; [exact Hv|]. split; [reflexivity|]. split; [exact He|].
  pose proof (C4_credential_resolution Demo.gh 1 (Demo.flags "acme" "r1,r2" "")
                Demo.env_token 0%nat Hv) as (_ & _ & Henv & _).
  destruct (Henv eq_refl He) as (_ & Hcfg & Hex).
  split; [exact Hcfg|]. split; [exact (Hex (or_introl Hr))|].
  pose proof (C4_credential_resolution Demo.gh 1 (Demo.flags "acme" "r1,r2" "")
                Demo.no_env 0%nat Hv) as (_ & _ & _ & Hnone).
  destruct (Hnone eq_refl eq_refl) as (_ & Hrun & _ & Hexit).
  split; [exact Hrun|exact Hexit].
Defined.

Lemma C6_exit_code_witness :
  Z.of_nat (length (submissions (trace
    (main Demo.gh 2 (Demo.flags "acme" "r1,r2" "x") Demo.no_env
       (init_world 0%nat)).1))) ≤ int_max ∧
  ((0 < count sub_failed (submissions (trace
      (main Demo.gh 2 (Demo.flags "acme" "r1,r2" "x") Demo.no_env
         (init_world 0%nat)).1)))%nat →
   exit_code (main Demo.gh 2 (Demo.flags "acme" "r1,r2" "x") Demo.no_env
                (init_world 0%nat)).2 = Some 1) ∧
  Z.of_nat (length (submissions (trace
    (main Demo.gh 2 (Demo.flags "down" "" "x") Demo.no_env
       (init_world 0%nat)).1))) ≤ int_max ∧
  exit_code (main Demo.gh 2 (Demo.flags "down" "" "x") Demo.no_env
               (init_world 0%nat)).2 = Some 1.
Proof.
  assert (Hmax : Z.of_nat (length (submissions (trace
            (main Demo.gh 2 (Demo.flags "acme" "r1,r2" "x") Demo.no_env
               (init_world 0%nat)).1))) ≤ int_max)
    by (vm_compute; discriminate).
  assert (Hmax' : Z.of_nat (length (submissions (trace
            (main Demo.gh 2 (Demo.flags "down" "" "x") Demo.no_env
               (init_world 0%nat)).1))) ≤ int_max)
    by (vm_compute; discriminate).
  assert (Hv : valid (Demo.flags "down" "" "x"))
    by (unfold valid; repeat split; vm_compute; discriminate).
  assert (Ht : resolved_token (Demo.flags "down" "" "x") Demo.no_env ≠ "")
    by (vm_compute; discriminate).
  assert (Hl : listing Demo.gh (creator_of (Demo.flags "down" "" "x") Demo.no_env)
                 first_page 0%nat Demo.down_exchanges 2%nat).
  { eapply listing_more; [reflexivity|discriminate|].
    eapply listing_failed. reflexivity. }
  assert (Hn : named Demo.down_exchanges).
  { repeat constructor; try discriminate. by eexists. }
  assert (Hfuel : (length Demo.down_exchanges ≤ 2)%nat) by (simpl; lia).
  split; [exact Hmax|].
  split.
  { exact (proj1 (proj2 (C6_exit_code Demo.gh 2 (Demo.flags "acme" "r1,r2" "x")
                           Demo.no_env 0%nat Hmax))). }
  split; [exact Hmax'|].
  pose proof (C6_exit_code Demo.gh 2 (Demo.flags "down" "" "x") Demo.no_env 0%nat
                Hmax') as (_ & _ & _ & _ & _ & _ & _ & Hlisting).
  destruct (Hlisting Hv Ht eq_refl Demo.down_exchanges 2%nat Hl Hn Hfuel)
    as [Hfetch _].
  exact (proj2 (Hfetch "503 Service Unavailable" eq_refl)).
Defined.

Lemma C9_same_payload_everywhere_witness :
  valid (Demo.flags "acme" "b,a" "x") ∧
  resolved_token (Demo.flags "acme" "b,a" "x") Demo.no_env ≠ "" ∧
  length (submissions (trace
    (main Demo.gh 0 (Demo.flags "acme" "b,a" "x") Demo.no_env (init_world 0%nat)).1))
    = length ["b"; "a"] ∧
  ∀ i repo, ["b"; "a"] !! i = Some repo →
    ∃ res, submissions (trace
             (main Demo.gh 0 (Demo.flags "acme" "b,a" "x") Demo.no_env
                (init_world 0%nat)).1) !! i
           = Some ("acme", repo,
                   {| github.Title := Some "T";
                      github.Body := Some "D";
                      github.Labels := Some ["bug"; "help wanted"] |}, res).
Proof.
  assert (Hv : valid (Demo.flags "acme" "b,a" "x"))
    by (unfold valid; repeat split; vm_compute; discriminate).
  assert (Ht : resolved_token (Demo.flags "acme" "b,a" "x") Demo.no_env ≠ "")
    by (vm_compute; discriminate).
  split; [exact Hv|]. split; [exact Ht|].
  pose proof (C9_same_payload_everywhere Demo.gh 0 (Demo.flags "acme" "b,a" "x")
                Demo.no_env 0%nat) as (_ & Hrun & _).
  exact (Hrun Hv Ht (init_world 0%nat) ["b"; "a"] eq_refl).
Defined.
